(** * Teclas: keystroke matching and dispatch

    A shallow embedding of [mod.ts]: the platform detector [isMacOS], the
    [Key] catalog of single-key predicates, the rule matcher
    [checkKeystroke] and the dispatcher factory [handleKeyboard].

    JavaScript functions are embedded as computations in a small monad
    [JS] that threads the program state and may complete abruptly with a
    thrown exception, so that reading [globalThis.navigator], the
    short-circuit of [&&] and the effects of user callbacks are all visible
    in the model.  Strings are sequences of character codes; the module
    only compares them with [===] and searches them for a literal. *)

From Stdlib Require Import String Ascii List Bool.
Import ListNotations.
Open Scope string_scope.
Open Scope list_scope.

Set Implicit Arguments.

(* ================================================================== *)
(** * JavaScript values and the fragment of the language used          *)
(* ================================================================== *)

(** The values that can sit in [globalThis.navigator] and in its
    [userAgent] slot: the primitives but numbers, and plain objects, that
    is own data properties with string keys under the default
    [Object.prototype].  Since no value of this type is callable, a plain
    object here never carries a method of its own.  Arrays, functions,
    wrapper objects, accessors and objects with methods of their own are
    outside this type: converting one of them to a string runs other code,
    which may return any string, throw, or write to the state.  A theorem
    that speaks of the user agent therefore names the values it covers
    (a string, a primitive) in its statement. *)
#[warnings="-register-all"]
Inductive Value : Type :=
| VUndefined
| VNull
| VBoolean (b : bool)
| VString (s : string)
| VSymbol (description : string)
| VObject (props : list (string * Value)).

(** What a [throw] carries: the engine's own [TypeError], or any value
    thrown by user code. *)
Inductive Exn : Type :=
| TypeError
| Thrown (payload : Value).

(** A completion record: normal with a value, or abrupt with a throw. *)
Inductive Completion (A : Type) : Type :=
| Normal (a : A)
| Throw (e : Exn).

Arguments Normal {A} a.
Arguments Throw {A} e.

(** Own-property lookup in a property list; the first binding wins. *)
Fixpoint lookupProp (name : string) (props : list (string * Value)) : option Value :=
  match props with
  | [] => None
  | (k, v) :: rest => if String.eqb k name then Some v else lookupProp name rest
  end.

(** [v.name].  Reading a property of [undefined] or [null] throws a
    [TypeError]; a missing property reads as [undefined].  Primitives are
    boxed and looked up on their prototype: the standard prototypes hold no
    [userAgent], the only name this module ever reads. *)
Definition getProperty (v : Value) (name : string) : Completion Value :=
  match v with
  | VUndefined | VNull => Throw TypeError
  | VObject props =>
      match lookupProp name props with
      | Some x => Normal x
      | None => Normal VUndefined
      end
  | VBoolean _ | VString _ | VSymbol _ => Normal VUndefined
  end.

(** The abstract operation ToString, which [RegExp.prototype.test]
    applies to its argument.  An object is converted by its [toString],
    then its [valueOf].  Without a [toString] of its own a plain object
    inherits [Object.prototype.toString].  With one, which in this type
    is never callable, it is skipped; [valueOf] is then not callable
    either or is the inherited one, which returns the object itself; no
    primitive comes out and the conversion throws a [TypeError]. *)
Definition ToString (v : Value) : Completion string :=
  match v with
  | VUndefined => Normal "undefined"
  | VNull => Normal "null"
  | VBoolean true => Normal "true"
  | VBoolean false => Normal "false"
  | VString s => Normal s
  | VSymbol _ => Throw TypeError
  | VObject props =>
      match lookupProp "toString" props with
      | Some _ => Throw TypeError
      | None => Normal "[object Object]"
      end
  end.

(** [/pattern/.test(s)] for a pattern made of literal characters and no
    flags: the match is attempted at index 0, then 1, ... up to and
    including the length of [s]. *)
Fixpoint RegExp_test (pattern s : string) : bool :=
  String.prefix pattern s
  || match s with
     | EmptyString => false
     | String _ rest => RegExp_test pattern rest
     end.

(** [e.key] of the [Event] interface. *)
Record Event : Type := { key : string }.

(* ================================================================== *)
(** * Program state and the [JS] monad                                 *)
(* ================================================================== *)

Section Program.

(** Everything mutable that is not the navigator: the state user
    callbacks (and user predicates) may read and write. *)
Variable U : Type.

Record World : Type := {
  navigator : Value;   (* globalThis.navigator *)
  user : U
}.

Definition JS (A : Type) : Type := World -> Completion A * World.

Definition ret {A} (a : A) : JS A := fun w => (Normal a, w).

Definition bind {A B} (m : JS A) (k : A -> JS B) : JS B :=
  fun w =>
    match m w with
    | (Normal a, w') => k a w'
    | (Throw e, w') => (Throw e, w')
    end.

(** A pure operation that may throw, run without touching the state. *)
Definition lift {A} (c : Completion A) : JS A := fun w => (c, w).

(** Reading the global [globalThis.navigator]. *)
Definition globalThis_navigator : JS Value := fun w => (Normal (navigator w), w).

End Program.

Arguments ret {U A} a.
Arguments bind {U A B} m k.
Arguments lift {U A} c.
Arguments globalThis_navigator {U}.
Arguments navigator {U} w.
Arguments user {U} w.

Declare Scope js_scope.
Delimit Scope js_scope with js.
Notation "x <- m ;; k" := (bind m (fun x => k))
  (at level 100, m at next level, right associativity) : js_scope.
Notation "m ;; k" := (bind m (fun _ => k))
  (at level 100, right associativity) : js_scope.
Open Scope js_scope.

(* ================================================================== *)
(** * Global functions                                                 *)
(* ================================================================== *)

(** [const isMacOS = (): boolean => /Mac/.test(globalThis.navigator.userAgent)] *)
Definition isMacOS {U} : JS U bool :=
  nav <- globalThis_navigator ;;
  userAgent <- lift (getProperty nav "userAgent") ;;
  s <- lift (ToString userAgent) ;;
  ret (RegExp_test "Mac" s).

(** ** Operators and array methods of the host language *)

(** [a === b] on two strings. *)
Definition strictEq {U} (a b : string) : JS U bool := ret (String.eqb a b).

(** [a && b] on booleans: [b] is evaluated only when [a] is [true]. *)
Definition js_and {U} (a b : JS U bool) : JS U bool :=
  x <- a ;; if x then b else ret false.

(** [a || b] on booleans: [b] is evaluated only when [a] is [false]. *)
Definition js_or {U} (a b : JS U bool) : JS U bool :=
  x <- a ;; if x then ret true else b.

(** [!a]. *)
Definition js_not {U} (a : JS U bool) : JS U bool :=
  x <- a ;; ret (negb x).

Infix "&&&" := js_and (at level 40, left associativity) : js_scope.
Infix "|||" := js_or (at level 50, left associativity) : js_scope.

(** [arr.reduce(callbackfn, initialValue)]: left to right, the
    accumulator threaded through every element. *)
Fixpoint Array_reduce {U A B} (callbackfn : B -> A -> JS U B)
    (arr : list A) (initialValue : B) : JS U B :=
  match arr with
  | [] => ret initialValue
  | currentValue :: rest =>
      accumulator <- callbackfn initialValue currentValue ;;
      Array_reduce callbackfn rest accumulator
  end.

(** [arr.forEach(callbackfn)]: left to right; a throw in [callbackfn]
    leaves the loop at once. *)
Fixpoint Array_forEach {U A} (callbackfn : A -> JS U unit) (arr : list A) : JS U unit :=
  match arr with
  | [] => ret tt
  | x :: rest => callbackfn x ;; Array_forEach callbackfn rest
  end.

(* ================================================================== *)
(** * Types                                                            *)
(* ================================================================== *)

(** [type CheckKeypress = (ev: Event) => boolean] *)
Definition CheckKeypress (U : Type) : Type := Event -> JS U bool.

(** [interface iKeystroke { keys; except; cb }] *)
Record iKeystroke (U : Type) : Type := {
  keys : list (CheckKeypress U);
  except : list (CheckKeypress U);
  cb : Event -> JS U unit
}.

Arguments keys {U} i.
Arguments except {U} i.
Arguments cb {U} i.

(* ================================================================== *)
(** * Exports                                                          *)
(* ================================================================== *)

(** [checkKeystroke]: two reductions joined by [&&]. *)
Definition checkKeystroke {U} (keystroke : iKeystroke U) (ev : Event) : JS U bool :=
  Array_reduce
    (fun accumulator currentValue => ret accumulator &&& currentValue ev)
    (keys keystroke) true
  &&&
  Array_reduce
    (fun accumulator currentValue => ret accumulator &&& js_not (currentValue ev))
    (except keystroke) true.

(** [handleKeyboard]: the returned closure is the function of [ev]. *)
Definition handleKeyboard {U} (keystrokes : list (iKeystroke U)) : Event -> JS U unit :=
  fun ev =>
    Array_forEach
      (fun keystroke =>
         hit <- checkKeystroke keystroke ev ;;
         if hit then cb keystroke ev else ret tt)
      keystrokes.

(** The [Key] object: one predicate per property. *)
Module Key.
Section Catalog.
Variable U : Type.

Definition Enter : CheckKeypress U := fun ev => strictEq (key ev) "Enter".
Definition Backspace : CheckKeypress U := fun ev => strictEq (key ev) "Backspace".
Definition Shift : CheckKeypress U := fun ev => strictEq (key ev) "Shift".
Definition Escape : CheckKeypress U := fun ev => strictEq (key ev) "Escape".
Definition Tab : CheckKeypress U := fun ev => strictEq (key ev) "Tab".
Definition Control : CheckKeypress U := fun ev => strictEq (key ev) "Control".
Definition Meta : CheckKeypress U := fun ev => strictEq (key ev) "Meta".
Definition Alt : CheckKeypress U := fun ev => strictEq (key ev) "Alt".
Definition Spacebar : CheckKeypress U := fun ev => strictEq (key ev) " ".
Definition Up : CheckKeypress U := fun ev => strictEq (key ev) "ArrowUp".
Definition Down : CheckKeypress U := fun ev => strictEq (key ev) "ArrowDown".
Definition Left : CheckKeypress U := fun ev => strictEq (key ev) "ArrowLeft".
Definition Right : CheckKeypress U := fun ev => strictEq (key ev) "ArrowRight".

Definition CtrlWin : CheckKeypress U :=
  fun ev => strictEq (key ev) "Control" &&& js_not isMacOS.

Definition WindowsKey : CheckKeypress U :=
  fun ev => strictEq (key ev) "Meta" &&& js_not isMacOS.

Definition CtrlMac : CheckKeypress U :=
  fun ev => strictEq (key ev) "Control" &&& isMacOS.

Definition Command : CheckKeypress U :=
  fun ev => strictEq (key ev) "Meta" &&& isMacOS.

Definition mod1 : CheckKeypress U :=
  fun ev =>
    (strictEq (key ev) "Control" &&& js_not isMacOS)
    ||| (strictEq (key ev) "Meta" &&& isMacOS).

Definition mod2 : CheckKeypress U :=
  fun ev =>
    (strictEq (key ev) "Control" &&& isMacOS)
    ||| (strictEq (key ev) "Meta" &&& js_not isMacOS).

(** The object's properties, in declaration order. *)
Definition entries : list (string * CheckKeypress U) :=
  [ ("Enter", Enter); ("Backspace", Backspace); ("Shift", Shift);
    ("Escape", Escape); ("Tab", Tab); ("Control", Control); ("Meta", Meta);
    ("Alt", Alt); ("Spacebar", Spacebar); ("Up", Up); ("Down", Down);
    ("Left", Left); ("Right", Right); ("CtrlWin", CtrlWin);
    ("WindowsKey", WindowsKey); ("CtrlMac", CtrlMac); ("Command", Command);
    ("mod1", mod1); ("mod2", mod2) ].

End Catalog.

Arguments Enter {U}. Arguments Backspace {U}. Arguments Shift {U}.
Arguments Escape {U}. Arguments Tab {U}. Arguments Control {U}.
Arguments Meta {U}. Arguments Alt {U}. Arguments Spacebar {U}.
Arguments Up {U}. Arguments Down {U}. Arguments Left {U}.
Arguments Right {U}. Arguments CtrlWin {U}. Arguments WindowsKey {U}.
Arguments CtrlMac {U}. Arguments Command {U}. Arguments mod1 {U}.
Arguments mod2 {U}.
End Key.

(* ================================================================== *)
(** * The unit-test module                                             *)
(* ================================================================== *)

(** [mockUserAgent(ua)]: redefines [globalThis.navigator] as
    [{ userAgent: ua }]. *)
Definition mockUserAgent {U} (ua : string) (w : World U) : World U :=
  {| navigator := VObject [("userAgent", VString ua)]; user := user w |}.

(** One entry of [testCasesIsMacOS]. *)
Record TestCase : Type := { name : string; ua : string; expected : bool }.

(** The user agent of the last test case. *)
Definition iPhoneUserAgent : string :=
  "Mozilla/5.0 (iPhone; CPU iPhone OS 15_4 like Mac OS X) AppleWebKit/605.1.15 (KHTML, like Gecko) Version/15.4 Mobile/19E241 Safari/604.1".

Definition testCasesIsMacOS : list TestCase :=
  [ {| name := "returns true for Safari on macOS";
       ua := "Mozilla/5.0 (Macintosh; Intel Mac OS X 10_15_7) AppleWebKit/605.1.15 (KHTML, like Gecko) Version/14.0 Safari/605.1.15";
       expected := true |};
    {| name := "returns true for Chrome on macOS";
       ua := "Mozilla/5.0 (Macintosh; Intel Mac OS X 10_15_7) AppleWebKit/537.36 (KHTML, like Gecko) Chrome/114.0.0.0 Safari/537.36";
       expected := true |};
    {| name := "returns false for Windows 10 with Edge";
       ua := "Mozilla/5.0 (Windows NT 10.0; Win64; x64) AppleWebKit/537.36 (KHTML, like Gecko) Chrome/42.0.2311.135 Safari/537.36 Edge/12.246";
       expected := false |};
    {| name := "returns false for Android Device";
       ua := "Mozilla/5.0 (Linux; Android 10; SM-G973F) AppleWebKit/537.36 (KHTML, like Gecko) Chrome/112.0.0.0 Mobile Safari/537.36";
       expected := false |};
    {| name := "returns false for iPhone";
       ua := iPhoneUserAgent;
       expected := false |} ].

(** The body of one test step: mock, call, and report what was returned. *)
Definition runTestCase {U} (t : TestCase) (w : World U) : Completion bool :=
  fst (isMacOS (mockUserAgent (ua t) w)).

(** [Object.defineProperty(globalThis, 'navigator', { value, writable:
    true, configurable: true })], on a property that can be redefined. *)
Definition defineNavigator {U} (value : Value) : JS U unit :=
  fun w => (Normal tt, {| navigator := value; user := user w |}).

(** The callback given to [t.step] for one test case.  [assertEquals]
    comes from the assertion library and [originalNavigator] is the
    module constant read from [globalThis.navigator] at load time; both
    are parameters here. *)
Definition testStep {U} (assertEquals : bool -> bool -> string -> JS U unit)
    (originalNavigator : Value) (testCase : TestCase) : JS U unit :=
  defineNavigator (VObject [("userAgent", VString (ua testCase))]) ;;
  result <- isMacOS ;;
  assertEquals result (expected testCase)
    ("Failed for test case: " ++ name testCase)%string ;;
  defineNavigator originalNavigator.

(* ================================================================== *)
(** * Specification vocabulary                                         *)
(* ================================================================== *)

(** [sub] occurs somewhere in [s]. *)
Definition contains (sub s : string) : Prop :=
  exists pre post, s = (pre ++ sub ++ post)%string.

(** The computation [m], run in [w], returns [b] and leaves [w] as it
    was. *)
Definition returns {U A} (m : JS U A) (w : World U) (a : A) : Prop :=
  m w = (Normal a, w).

(** A predicate is well behaved on [ev] in [w] when the call returns a
    boolean and has no side effect. *)
Definition side_effect_free {U} (p : CheckKeypress U) (ev : Event) (w : World U) : Prop :=
  exists b, returns (p ev) w b.

(** The predicates [ps], called one after the other on [ev] from the
    state [w], each return [v], and the last call ends in [w']. *)
Fixpoint all_return {U} (v : bool) (ps : list (CheckKeypress U)) (ev : Event)
    (w w' : World U) : Prop :=
  match ps with
  | [] => w' = w
  | p :: rest => exists w1, p ev w = (Normal v, w1) /\ all_return v rest ev w1 w'
  end.

(** Every predicate of a rule is well behaved on [ev] in [w]. *)
Definition pure_rule {U} (r : iKeystroke U) (ev : Event) (w : World U) : Prop :=
  forall p, In p (keys r ++ except r) -> side_effect_free p ev w.

(** The eager reference of the matcher, after the specification: every
    predicate of both lists is called, then the results are combined. *)
Fixpoint evalAll {U} (ps : list (CheckKeypress U)) (ev : Event) : JS U (list bool) :=
  match ps with
  | [] => ret []
  | p :: rest => b <- p ev ;; bs <- evalAll rest ev ;; ret (b :: bs)
  end.

Definition checkKeystroke_eager {U} (r : iKeystroke U) (ev : Event) : JS U bool :=
  required <- evalAll (keys r) ev ;;
  excluded <- evalAll (except r) ev ;;
  ret (forallb (fun b => b) required && forallb negb excluded).

(** The rule is satisfied by [ev] in [w]: the matcher returns [true]. *)
Definition satisfied {U} (r : iKeystroke U) (ev : Event) (w : World U) : bool :=
  match fst (checkKeystroke r ev w) with
  | Normal true => true
  | _ => false
  end.

(** Two runs, [m1] from [w1] and [m2] from [w2], complete alike and
    neither changes its state. *)
Definition agree {U A} (m1 : JS U A) (w1 : World U) (m2 : JS U A) (w2 : World U) : Prop :=
  fst (m1 w1) = fst (m2 w2) /\ snd (m1 w1) = w1 /\ snd (m2 w2) = w2.

(** A function of the event is history free when two calls on events with
    equal keys, in two states that [isMacOS] classifies alike, complete
    alike and change nothing, whatever else the two states hold. *)
Definition history_free {U A} (f : Event -> JS U A) : Prop :=
  forall ev1 ev2 (w1 w2 : World U),
    key ev1 = key ev2 ->
    fst (isMacOS w1) = fst (isMacOS w2) ->
    agree (f ev1) w1 (f ev2) w2.

(** The catalog's predicates, without their names. *)
Definition catalog {U} : list (CheckKeypress U) := map snd (Key.entries U).

(** What the test step relies on from [assertEquals], on booleans: it
    returns when the two values are equal and throws when they differ,
    and touches no state. *)
Definition assertEquals_contract {U}
    (assertEquals : bool -> bool -> string -> JS U unit) : Prop :=
  forall actual expected msg (w : World U),
    (actual = expected -> assertEquals actual expected msg w = (Normal tt, w)) /\
    (actual <> expected -> exists err, assertEquals actual expected msg w = (Throw err, w)).

(** The properties of [Key] that compare [ev.key] with one constant,
    each with its name: the thirteen declared first, Enter to Right. *)
Definition literalNamedEntries {U} : list (string * CheckKeypress U) :=
  firstn 13 (Key.entries U).

(** The entries that also call [isMacOS]. *)
Definition osAwareEntries {U} : list (CheckKeypress U) :=
  [ Key.CtrlWin; Key.WindowsKey; Key.CtrlMac; Key.Command; Key.mod1; Key.mod2 ].

(** No event makes both [p] and [q] return [true], in whatever states
    they are called. *)
Definition incompatible {U} (p q : CheckKeypress U) : Prop :=
  forall ev (w1 w1' w2 w2' : World U),
    p ev w1 = (Normal true, w1') -> q ev w2 = (Normal true, w2') -> False.

(** Whenever [p] returns [true] on an event, [q] cannot return [false]
    on it, in whatever states they are called. *)
Definition entails {U} (p q : CheckKeypress U) : Prop :=
  forall ev (w1 w1' w2 w2' : World U),
    p ev w1 = (Normal true, w1') -> q ev w2 = (Normal false, w2') -> False.

(** What the matcher completes with once a predicate has completed
    with [c] instead of the value asked of it: [false], or the exception
    the predicate threw. *)
Definition rejection (c : Completion bool) : Completion bool :=
  match c with
  | Normal _ => Normal false
  | Throw e => Throw e
  end.

(** The two rules put together: both lists concatenated. *)
Definition bothRules {U} (r1 r2 : iKeystroke U) (callback : Event -> JS U unit) : iKeystroke U :=
  {| keys := keys r1 ++ keys r2; except := except r1 ++ except r2; cb := callback |}.

(* ================================================================== *)
(** * Sample states, events and rules                                  *)
(* ================================================================== *)

(** A program state that is a log of lines, and a callback that appends
    one line naming itself and the key it was called with. *)
Definition Log : Type := list string.

Definition logCall (tag : string) : Event -> JS Log unit :=
  fun ev w =>
    (Normal tt, {| navigator := navigator w; user := user w ++ [(tag ++ ":" ++ key ev)%string] |}).

(** A callback that logs, then throws. *)
Definition logThenThrow (tag : string) : Event -> JS Log unit :=
  fun ev w =>
    (Throw (Thrown (VString tag)),
     {| navigator := navigator w; user := user w ++ [(tag ++ ":" ++ key ev)%string] |}).

Definition macWorld : World Log :=
  mockUserAgent "Mozilla/5.0 (Macintosh; Intel Mac OS X 10_15_7)" {| navigator := VUndefined; user := [] |}.

Definition winWorld : World Log :=
  mockUserAgent "Mozilla/5.0 (Windows NT 10.0; Win64; x64)" {| navigator := VUndefined; user := [] |}.

(** Another Mac, with a different user agent and a log that already
    holds lines written while earlier events were handled. *)
Definition busyMacWorld : World Log :=
  {| navigator := VObject [("platform", VString "MacIntel");
                           ("userAgent", VString "Macintosh")];
     user := ["enter:Enter"; "mod1:Meta"] |}.

(** No [navigator] at all, as in a runtime that does not define one. *)
Definition bareWorld : World Log := {| navigator := VUndefined; user := [] |}.

(** A navigator whose [userAgent] is a symbol. *)
Definition symbolWorld : World Log :=
  {| navigator := VObject [("userAgent", VSymbol "ua")]; user := [] |}.

(** A navigator whose [userAgent] is an object with a [toString] that
    is a string, not a function. *)
Definition badToStringWorld : World Log :=
  {| navigator := VObject [("userAgent", VObject [("toString", VString "Mac")])];
     user := [] |}.

Definition enterKey : Event := {| key := "Enter" |}.
Definition metaKey : Event := {| key := "Meta" |}.
Definition controlKey : Event := {| key := "Control" |}.

(** Enter, unless the platform's primary modifier is the key. *)
Definition enterNotMod1 : iKeystroke Log :=
  {| keys := [Key.Enter]; except := [Key.mod1]; cb := logCall "enter" |}.

(** The platform's primary modifier alone. *)
Definition primaryModifier : iKeystroke Log :=
  {| keys := [Key.mod1]; except := []; cb := logCall "mod1" |}.

(** A predicate written by a user of the library: the letter k. *)
Definition letterK : CheckKeypress Log := fun ev => strictEq (key ev) "k".

(** The letter k, unless the platform's primary modifier is the key. *)
Definition kNotMod1 : iKeystroke Log :=
  {| keys := [letterK]; except := [Key.mod1]; cb := logCall "k" |}.

(** A rule that both requires and excludes Shift. *)
Definition shiftAndNotShift : iKeystroke Log :=
  {| keys := [Key.Enter; Key.Shift]; except := [Key.Shift]; cb := logCall "never" |}.

(** A predicate with a side effect: it writes to the log and answers
    [true]. *)
Definition noisy : CheckKeypress Log :=
  fun ev w =>
    (Normal true, {| navigator := navigator w; user := user w ++ ["noisy"] |}).

Definition tabThenNoisy : iKeystroke Log :=
  {| keys := [Key.Tab; noisy]; except := []; cb := logCall "tab" |}.

(** On Enter, write a line to the log. *)
Definition enterLogs (tag : string) : iKeystroke Log :=
  {| keys := [Key.Enter]; except := []; cb := logCall tag |}.

(** On Enter, write a line to the log, then throw. *)
Definition enterThrows (tag : string) : iKeystroke Log :=
  {| keys := [Key.Enter]; except := []; cb := logThenThrow tag |}.

Definition sampleRules : list (iKeystroke Log) :=
  [ {| keys := [Key.Enter]; except := []; cb := logCall "first" |};
    {| keys := [Key.Tab]; except := []; cb := logCall "second" |};
    {| keys := []; except := [Key.mod1]; cb := logCall "third" |} ].

(** An [assertEquals] on booleans that throws an error object carrying
    the message. *)
Definition assertEqualsBool {U} (actual expected : bool) (msg : string) : JS U unit :=
  fun w =>
    if Bool.eqb actual expected then (Normal tt, w)
    else (Throw (Thrown (VObject [("name", VString "AssertionError");
                                  ("message", VString msg)])), w).

(** The iPhone case of the test module. *)
Definition iPhoneCase : TestCase :=
  {| name := "returns false for iPhone"; ua := iPhoneUserAgent; expected := false |}.

(** The Windows case of the test module. *)
Definition windowsCase : TestCase :=
  {| name := "returns false for Windows 10 with Edge";
     ua := "Mozilla/5.0 (Windows NT 10.0; Win64; x64) AppleWebKit/537.36 (KHTML, like Gecko) Chrome/42.0.2311.135 Safari/537.36 Edge/12.246";
     expected := false |}.

(** The third rule of the README: the primary modifier, Shift and Enter
    all required of one event. *)
Definition modShiftEnter : iKeystroke Log :=
  {| keys := [Key.mod1; Key.Shift; Key.Enter]; except := []; cb := logCall "chord" |}.

(** Control on Windows, unless Control. *)
Definition ctrlWinNotControl : iKeystroke Log :=
  {| keys := [Key.CtrlWin]; except := [Key.Control]; cb := logCall "never" |}.

(** A predicate that always throws. *)
Definition failing : CheckKeypress Log :=
  fun ev w => (Throw (Thrown (VString "failing")), w).

(** Tab, then two predicates that would write to the log or throw. *)
Definition tabNoisyFailing : iKeystroke Log :=
  {| keys := [Key.Tab; noisy; failing]; except := [failing]; cb := logCall "tab" |}.

(** Enter, then a predicate that throws. *)
Definition enterFailing : iKeystroke Log :=
  {| keys := [Key.Enter; failing]; except := []; cb := logCall "enter" |}.

(** On Control, write a line to the log. *)
Definition controlLogs (tag : string) : iKeystroke Log :=
  {| keys := [Key.Control]; except := []; cb := logCall tag |}.

(** Enter with nothing excluded, and anything but Shift. *)
Definition enterOnly : iKeystroke Log :=
  {| keys := [Key.Enter]; except := []; cb := logCall "enter" |}.

Definition notShift : iKeystroke Log :=
  {| keys := []; except := [Key.Shift]; cb := logCall "notShift" |}.

(** Enter and not Tab nor Shift, written twice: once plainly, once with
    repetitions and in another order. *)
Definition enterNotTab : iKeystroke Log :=
  {| keys := [Key.Enter]; except := [Key.Tab; Key.Shift]; cb := logCall "a" |}.

Definition enterNotTabAgain : iKeystroke Log :=
  {| keys := [Key.Enter; Key.Enter]; except := [Key.Shift; Key.Tab; Key.Shift];
     cb := logCall "b" |}.

(* ================================================================== *)
(** * Proof automation                                                 *)
(* ================================================================== *)

(** Unfolds the operators of one catalog entry down to the state
    function. *)
Ltac unfold_entry :=
  unfold returns, js_or, js_and, js_not, strictEq, bind, ret in *.

(** Closes a goal [In x l] on a list written out in full. *)
Ltac in_list := simpl; repeat (first [left; reflexivity | right]).

(* ================================================================== *)
(** * Strings and the regular expression                               *)
(* ================================================================== *)

Lemma prefix_iff_app (p s : string) :
  String.prefix p s = true <-> exists post, s = (p ++ post)%string.
Proof.
  revert s; induction p as [|c p IH]; intros s.
  - split; [intros _; now exists s | now destruct s].
  - destruct s as [|d s]; simpl.
    + split; [discriminate | intros [post H]; discriminate].
    + destruct (Ascii.ascii_dec c d) as [->|ne].
      * rewrite IH. split; intros [post H]; exists post.
        -- now rewrite H.
        -- now inversion H.
      * split; [discriminate | intros [post H]; inversion H; now elim ne].
Qed.

Lemma RegExp_test_unfold (p s : string) :
  RegExp_test p s =
  String.prefix p s
  || match s with
     | EmptyString => false
     | String _ rest => RegExp_test p rest
     end.
Proof. destruct s; reflexivity. Qed.

(** The literal-pattern test succeeds exactly on the strings in which
    the pattern occurs. *)
Lemma RegExp_test_contains (p s : string) :
  RegExp_test p s = true <-> contains p s.
Proof.
  unfold contains. induction s as [|c s IH].
  - rewrite RegExp_test_unfold, orb_false_r, prefix_iff_app. split.
    + intros [post H]. now exists EmptyString, post.
    + intros [pre [post H]]. destruct pre; [now exists post | discriminate].
  - rewrite RegExp_test_unfold, orb_true_iff, prefix_iff_app, IH. split.
    + intros [[post H] | [pre [post H]]].
      * now exists EmptyString, post.
      * exists (String c pre), post. simpl. now rewrite H.
    + intros [pre [post H]]. destruct pre as [|d pre]; simpl in H.
      * left. now exists post.
      * right. exists pre, post. now inversion H.
Qed.

Lemma RegExp_test_not_contains (p s : string) :
  RegExp_test p s = false <-> ~ contains p s.
Proof.
  rewrite <- RegExp_test_contains. destruct (RegExp_test p s); split; easy.
Qed.

(** A longer occurrence carries a shorter one. *)
Lemma contains_trans (a b s : string) :
  contains a b -> contains b s -> contains a s.
Proof.
  intros [p1 [q1 ->]] [p2 [q2 ->]].
  exists (p2 ++ p1)%string, (q1 ++ q2)%string.
  induction p2 as [|c p2 IH]; simpl.
  - induction p1 as [|c p1 IH1]; simpl.
    + induction a as [|c a IHa]; simpl; [reflexivity | now rewrite IHa].
    + now rewrite IH1.
  - now rewrite IH.
Qed.

(* ================================================================== *)
(** * The platform detector                                            *)
(* ================================================================== *)

(** What [isMacOS] computes, with the monad unfolded: the state is only
    read. *)
Lemma isMacOS_unfold U (w : World U) :
  isMacOS w =
  (match getProperty (navigator w) "userAgent" with
   | Normal v =>
       match ToString v with
       | Normal s => Normal (RegExp_test "Mac" s)
       | Throw e => Throw e
       end
   | Throw e => Throw e
   end, w).
Proof.
  unfold isMacOS, globalThis_navigator, bind, lift, ret.
  destruct (getProperty (navigator w) "userAgent") as [v|e]; [|reflexivity].
  destruct (ToString v); reflexivity.
Qed.

Lemma isMacOS_preserves_world U (w : World U) : snd (isMacOS w) = w.
Proof. now rewrite isMacOS_unfold. Qed.

Lemma isMacOS_userAgent_string U (w : World U) props s :
  navigator w = VObject props ->
  lookupProp "userAgent" props = Some (VString s) ->
  isMacOS w = (Normal (RegExp_test "Mac" s), w).
Proof.
  intros Hnav Hua. rewrite isMacOS_unfold, Hnav. simpl. now rewrite Hua.
Qed.

(** C3: with a string in [navigator.userAgent], [isMacOS] returns [true]
    when the string contains [Mac] anywhere and [false] when it does not,
    the empty string included; a user agent saying [like Mac OS X], as an
    iPhone does, is classified by that same test, hence as [true]. *)
Theorem isMacOS_substring_test U (w : World U) props s :
  navigator w = VObject props ->
  lookupProp "userAgent" props = Some (VString s) ->
  (contains "Mac" s -> isMacOS w = (Normal true, w)) /\
  (~ contains "Mac" s -> isMacOS w = (Normal false, w)) /\
  (s = "" -> isMacOS w = (Normal false, w)) /\
  (contains "like Mac OS X" s -> isMacOS w = (Normal true, w)).
Proof.
  intros Hnav Hua.
  rewrite (isMacOS_userAgent_string w Hnav Hua).
  repeat split.
  - intros H. apply RegExp_test_contains in H. now rewrite H.
  - intros H. apply RegExp_test_not_contains in H. now rewrite H.
  - intros ->. reflexivity.
  - intros H.
    assert (Hmac : contains "Mac" s).
    { apply contains_trans with (b := "like Mac OS X"); [|exact H].
      now exists "like ", " OS X". }
    apply RegExp_test_contains in Hmac. now rewrite Hmac.
Qed.

(** The iPhone user agent of the test module contains [like Mac OS X]. *)
Lemma iPhone_userAgent_contains_Mac :
  contains "like Mac OS X" iPhoneUserAgent.
Proof.
  apply RegExp_test_contains. vm_compute. reflexivity.
Qed.

(** On the iPhone user agent of the test module the detector answers
    [true], and [false] on the empty string. *)
Lemma isMacOS_substring_test_witness :
  isMacOS (mockUserAgent iPhoneUserAgent bareWorld)
  = (Normal true, mockUserAgent iPhoneUserAgent bareWorld)
  /\ isMacOS (mockUserAgent "" bareWorld) = (Normal false, mockUserAgent "" bareWorld).
Proof.
  split.
  - apply (isMacOS_substring_test (mockUserAgent iPhoneUserAgent bareWorld)
             (s := iPhoneUserAgent) eq_refl eq_refl).
    exact iPhone_userAgent_contains_Mac.
  - apply (isMacOS_substring_test (mockUserAgent "" bareWorld) (s := "") eq_refl eq_refl).
    reflexivity.
Defined.

(** What the five cases of the test module return: the outcomes of the
    first four are the expected ones, the iPhone case returns [true]. *)
Lemma testCasesIsMacOS_results U (w : World U) :
  map (fun t => runTestCase t w) testCasesIsMacOS
  = [Normal true; Normal true; Normal false; Normal false; Normal true].
Proof. reflexivity. Qed.

(** With no [navigator] object the property read throws; so does the
    conversion to a string of a user agent that is a symbol, or an object
    whose [toString] cannot be called. *)
Lemma isMacOS_throws_TypeError :
  isMacOS bareWorld = (Throw TypeError, bareWorld) /\
  isMacOS symbolWorld = (Throw TypeError, symbolWorld) /\
  isMacOS badToStringWorld = (Throw TypeError, badToStringWorld).
Proof. repeat split; now rewrite isMacOS_unfold. Qed.

(** C4, as the code has it: whenever [globalThis.navigator] is neither
    [undefined] nor [null] and the value read from its [userAgent] is
    [undefined], [null], a boolean or a string, the call completes
    normally and changes no state, and it returns [false] for a missing
    ([undefined] or [null]) or empty user agent; with [navigator] itself
    [undefined] or [null] the call throws a [TypeError], and so it does
    when the user agent is a symbol. *)
Theorem isMacOS_completion U (w : World U) :
  (forall v, getProperty (navigator w) "userAgent" = Normal v ->
     v = VUndefined \/ v = VNull \/ (exists b, v = VBoolean b) \/ (exists s, v = VString s) ->
     exists b, isMacOS w = (Normal b, w)) /\
  (forall v, getProperty (navigator w) "userAgent" = Normal v ->
     v = VUndefined \/ v = VNull \/ v = VString "" ->
     isMacOS w = (Normal false, w)) /\
  (navigator w = VUndefined \/ navigator w = VNull ->
     isMacOS w = (Throw TypeError, w)) /\
  (forall d, getProperty (navigator w) "userAgent" = Normal (VSymbol d) ->
     isMacOS w = (Throw TypeError, w)).
Proof.
  rewrite isMacOS_unfold. repeat split.
  - intros v Hget Hv. rewrite Hget.
    destruct Hv as [->|[->|[[b ->]|[s ->]]]]; simpl; eauto.
    destruct b; eauto.
  - intros v Hget [->|[->| ->]]; now rewrite Hget.
  - intros [H|H]; now rewrite H.
  - intros d Hget. now rewrite Hget.
Qed.

(** A navigator object without a [userAgent] is classified as not macOS,
    and the call returns. *)
Lemma isMacOS_completion_witness :
  isMacOS {| navigator := VObject []; user := tt |}
  = (Normal false, {| navigator := VObject []; user := tt |})
  /\ exists b, isMacOS (mockUserAgent "" bareWorld) = (Normal b, mockUserAgent "" bareWorld).
Proof.
  split.
  - apply (proj1 (proj2 (isMacOS_completion {| navigator := VObject []; user := tt |})))
      with (v := VUndefined); [reflexivity | now left].
  - apply (proj1 (isMacOS_completion (mockUserAgent "" bareWorld)))
      with (v := VString ""); [reflexivity|].
    right. right. right. now exists "".
Defined.

(* ================================================================== *)
(** * The matcher                                                      *)
(* ================================================================== *)

Lemma js_and_ret U (a : bool) (m : JS U bool) (w : World U) :
  (ret a &&& m) w = if a then m w else (Normal false, w).
Proof. unfold js_and, bind, ret. now destruct a. Qed.

Lemma js_not_returns U (m : JS U bool) (w : World U) (b : bool) :
  returns m w b -> returns (js_not m) w (negb b).
Proof. unfold returns, js_not, bind, ret. now intros ->. Qed.

(** With side-effect-free predicates the calls made by the two
    reductions and by the eager reference all return, in the same state;
    [bs] collects what each predicate answers. *)
Lemma pure_predicates_run U (ps : list (CheckKeypress U)) ev w :
  (forall p, In p ps -> side_effect_free p ev w) ->
  exists bs,
    Forall2 (fun p b => returns (p ev) w b) ps bs /\
    returns (evalAll ps ev) w bs /\
    (forall acc,
       returns (Array_reduce (fun a c => ret a &&& c ev) ps acc) w
               (acc && forallb (fun b => b) bs)) /\
    (forall acc,
       returns (Array_reduce (fun a c => ret a &&& js_not (c ev)) ps acc) w
               (acc && forallb negb bs)).
Proof.
  induction ps as [|p ps IH]; intros Hpure.
  - exists []. repeat split; try constructor; intros acc;
      unfold returns; simpl; unfold ret; now rewrite andb_true_r.
  - destruct (Hpure p (or_introl eq_refl)) as [b Hb].
    destruct IH as [bs [HF [HE [HK HX]]]].
    { intros q Hq. apply Hpure. now right. }
    exists (b :: bs). repeat split.
    + now constructor.
    + unfold returns in *. simpl. unfold bind. rewrite Hb, HE. reflexivity.
    + intros acc. unfold returns in *. simpl. unfold bind at 1.
      rewrite js_and_ret. destruct acc; simpl.
      * rewrite Hb. rewrite HK. reflexivity.
      * rewrite HK. reflexivity.
    + intros acc. unfold returns in *. simpl. unfold bind at 1.
      rewrite js_and_ret. destruct acc; simpl.
      * rewrite (js_not_returns Hb). rewrite HX. reflexivity.
      * rewrite HX. reflexivity.
Qed.

Lemma Forall2_In_left A B (R : A -> B -> Prop) l bs x :
  Forall2 R l bs -> In x l -> exists b, In b bs /\ R x b.
Proof.
  induction 1 as [|a b l bs Hab _ IH]; intros Hin; [easy|].
  destruct Hin as [->|Hin].
  - exists b. split; [now left | exact Hab].
  - destruct (IH Hin) as [b' [Hb' HR]]. exists b'. split; [now right | exact HR].
Qed.

(** Answers collected by [Forall2] are all [v] exactly when every
    predicate returns [v]. *)
Lemma answers_all U (ps : list (CheckKeypress U)) ev w bs (f : bool -> bool) v :
  (forall b, f b = true <-> b = v) ->
  Forall2 (fun p b => returns (p ev) w b) ps bs ->
  forallb f bs = true <-> Forall (fun p => returns (p ev) w v) ps.
Proof.
  intros Hf. induction 1 as [|p b ps bs Hpb _ IH]; simpl.
  - split; [constructor | reflexivity].
  - rewrite andb_true_iff, IH, Hf. split.
    + intros [-> HF]. now constructor.
    + intros HF. inversion HF as [|? ? Hp HF']; subst. split; [|exact HF'].
      unfold returns in *. congruence.
Qed.

(** The matcher on a rule with side-effect-free predicates: a boolean
    function of the predicates' answers, shared with the eager reference. *)
Lemma checkKeystroke_pure U (r : iKeystroke U) ev w :
  pure_rule r ev w ->
  exists bk bx,
    Forall2 (fun p b => returns (p ev) w b) (keys r) bk /\
    Forall2 (fun p b => returns (p ev) w b) (except r) bx /\
    returns (checkKeystroke r ev) w (forallb (fun b => b) bk && forallb negb bx) /\
    returns (checkKeystroke_eager r ev) w (forallb (fun b => b) bk && forallb negb bx).
Proof.
  intros Hpure.
  destruct (@pure_predicates_run U (keys r) ev w) as [bk [HFk [HEk [HKk _]]]].
  { intros p Hp. apply Hpure, in_or_app. now left. }
  destruct (@pure_predicates_run U (except r) ev w) as [bx [HFx [HEx [_ HXx]]]].
  { intros p Hp. apply Hpure, in_or_app. now right. }
  exists bk, bx. repeat split; trivial; unfold returns in *.
  - unfold checkKeystroke, js_and at 1, bind. rewrite (HKk true). simpl.
    destruct (forallb (fun b => b) bk); simpl.
    + now rewrite (HXx true).
    + reflexivity.
  - unfold checkKeystroke_eager, bind. rewrite HEk, HEx. reflexivity.
Qed.

(** A rule with no predicate at all matches, whatever the event and the
    state. *)
Lemma checkKeystroke_empty U (r : iKeystroke U) ev w :
  keys r = [] -> except r = [] -> returns (checkKeystroke r ev) w true.
Proof.
  intros Hk Hx. unfold returns, checkKeystroke. now rewrite Hk, Hx.
Qed.

(** Once the accumulator is [false] no predicate is called any more. *)
Lemma reduce_false U (g : CheckKeypress U -> JS U bool) ps (w : World U) :
  Array_reduce (fun a c => ret a &&& g c) ps false w = (Normal false, w).
Proof.
  induction ps as [|p ps IH]; simpl; [reflexivity|].
  unfold bind at 1. now rewrite js_and_ret.
Qed.

(** A reduction ends with [true] exactly when every call returned the
    value that keeps the accumulator [true]. *)
Lemma reduce_true_iff U (g : CheckKeypress U -> JS U bool) ev v ps :
  (forall p w w1, g p w = (Normal true, w1) <-> p ev w = (Normal v, w1)) ->
  forall w w',
    Array_reduce (fun a c => ret a &&& g c) ps true w = (Normal true, w')
    <-> all_return v ps ev w w'.
Proof.
  intros Hg. induction ps as [|p ps IH]; intros w w'; simpl.
  - unfold ret. split; [now inversion 1 | now intros ->].
  - unfold bind at 1. rewrite js_and_ret.
    destruct (g p w) as [[[|]|e] w1] eqn:E.
    + rewrite IH. split.
      * intros H. exists w1. split; [now apply Hg | exact H].
      * intros [w2 [Hp H]]. apply Hg in Hp. rewrite E in Hp.
        now inversion Hp; subst.
    + rewrite reduce_false. split; [discriminate|].
      intros [w2 [Hp _]]. apply Hg in Hp. congruence.
    + split; [discriminate|].
      intros [w2 [Hp _]]. apply Hg in Hp. congruence.
Qed.

Lemma js_not_true_iff U (m : JS U bool) (w w1 : World U) :
  js_not m w = (Normal true, w1) <-> m w = (Normal false, w1).
Proof.
  unfold js_not, bind, ret. destruct (m w) as [[[|]|e] w2]; simpl;
    split; intros H; inversion H; subst; reflexivity.
Qed.

(** The matcher on any rule, its predicates free to read and write the
    state: it returns [true] exactly when the predicates of [keys], called
    in turn, all return [true] and those of [except], called next, all
    return [false]. *)
Lemma checkKeystroke_true_general U (r : iKeystroke U) ev w w' :
  checkKeystroke r ev w = (Normal true, w') <->
  exists w1, all_return true (keys r) ev w w1 /\ all_return false (except r) ev w1 w'.
Proof.
  assert (Hk := @reduce_true_iff U (fun c => c ev) ev true (keys r)
                  (fun p w0 w1 => iff_refl _)).
  assert (Hx := @reduce_true_iff U (fun c => js_not (c ev)) ev false (except r)
                  (fun p w0 w1 => js_not_true_iff (p ev) w0 w1)).
  cbv beta in Hk, Hx.
  unfold checkKeystroke, js_and at 1, bind.
  destruct (Array_reduce (fun a c => ret a &&& c ev) (keys r) true w)
    as [[[|]|e] w1] eqn:E.
  - rewrite Hx. split.
    + intros H. exists w1. split; [now apply Hk | exact H].
    + intros [w2 [H1 H2]]. apply Hk in H1.
      pose proof (eq_trans (eq_sym E) H1) as Heq. now inversion Heq; subst.
  - split; [discriminate|]. intros [w2 [H1 _]]. apply Hk in H1.
    pose proof (eq_trans (eq_sym E) H1) as Heq. discriminate Heq.
  - split; [discriminate|]. intros [w2 [H1 _]]. apply Hk in H1.
    pose proof (eq_trans (eq_sym E) H1) as Heq. discriminate Heq.
Qed.

(** C1: [checkKeystroke] returns [true] if and only if every predicate
    of [keys] returns [true] on the event and every predicate of [except]
    returns [false] on it.  First for any rule, the calls made in turn;
    then for a rule whose predicates are side-effect free, where the
    matcher always returns a boolean and each predicate can be looked at
    on its own; with both lists empty it returns [true]. *)
Theorem checkKeystroke_true_iff U (r : iKeystroke U) ev w :
  (forall w',
     checkKeystroke r ev w = (Normal true, w') <->
     exists w1,
       all_return true (keys r) ev w w1 /\ all_return false (except r) ev w1 w') /\
  (pure_rule r ev w ->
   exists b,
     returns (checkKeystroke r ev) w b /\
     (b = true <->
      Forall (fun p => returns (p ev) w true) (keys r) /\
      Forall (fun p => returns (p ev) w false) (except r))) /\
  (keys r = [] -> except r = [] -> returns (checkKeystroke r ev) w true).
Proof.
  split; [intros w'; apply checkKeystroke_true_general|].
  split; [|apply checkKeystroke_empty].
  intros Hpure.
  destruct (checkKeystroke_pure Hpure) as [bk [bx [HFk [HFx [Hrun _]]]]].
  eexists. split; [exact Hrun|].
  rewrite andb_true_iff.
  rewrite (@answers_all U (keys r) ev w bk (fun b => b) true); trivial.
  - rewrite (@answers_all U (except r) ev w bx negb false); trivial.
    + reflexivity.
    + intros b. now destruct b.
  - intros b. reflexivity.
Qed.

(** Enter on a Mac, for the rule "Enter and not mod1". *)
Lemma checkKeystroke_true_iff_witness :
  pure_rule enterNotMod1 enterKey macWorld /\
  exists b,
    returns (checkKeystroke enterNotMod1 enterKey) macWorld b /\
    (b = true <->
     Forall (fun p => returns (p enterKey) macWorld true) (keys enterNotMod1) /\
     Forall (fun p => returns (p enterKey) macWorld false) (except enterNotMod1)).
Proof.
  assert (Hpure : pure_rule enterNotMod1 enterKey macWorld).
  { intros p [<-|[<-|[]]]; eexists; reflexivity. }
  split; [exact Hpure|].
  apply (proj1 (proj2 (checkKeystroke_true_iff enterNotMod1 enterKey macWorld)) Hpure).
Defined.

(** C7: on a rule with side-effect-free predicates the short-circuiting
    matcher and the eager reference, which calls every predicate of both
    lists and then takes the conjunction, complete in the same way. *)
Theorem checkKeystroke_refines_eager U (r : iKeystroke U) ev w :
  pure_rule r ev w ->
  checkKeystroke r ev w = checkKeystroke_eager r ev w.
Proof.
  intros Hpure.
  destruct (checkKeystroke_pure Hpure) as [bk [bx [_ [_ [Hshort Heager]]]]].
  unfold returns in *. now rewrite Hshort, Heager.
Qed.

(** Meta on a Mac: the first predicate fails, the second is skipped by
    the matcher and called by the reference. *)
Lemma checkKeystroke_refines_eager_witness :
  pure_rule enterNotMod1 metaKey macWorld /\
  checkKeystroke enterNotMod1 metaKey macWorld
  = checkKeystroke_eager enterNotMod1 metaKey macWorld.
Proof.
  assert (Hpure : pure_rule enterNotMod1 metaKey macWorld).
  { intros p [<-|[<-|[]]]; eexists; reflexivity. }
  split; [exact Hpure|].
  apply (checkKeystroke_refines_eager Hpure).
Defined.

(** The hypothesis of C7 is needed: a predicate that writes to the state
    is skipped by the matcher once an earlier one has failed, and is
    called by the eager reference. *)
Lemma eager_differs_on_effectful_predicate :
  checkKeystroke tabThenNoisy enterKey macWorld = (Normal false, macWorld) /\
  snd (checkKeystroke_eager tabThenNoisy enterKey macWorld) <> macWorld.
Proof. split; [reflexivity | discriminate]. Qed.

Lemma forallb_false_of_In A (f : A -> bool) l x :
  In x l -> f x = false -> forallb f l = false.
Proof.
  intros Hin Hx. destruct (forallb f l) eqn:E; [|reflexivity].
  rewrite forallb_forall in E. now rewrite (E x Hin) in Hx.
Qed.

(** C10: a rule that lists one predicate both in [keys] and in [except]
    returns [false] on every event, its predicates being side-effect
    free. *)
Theorem contradictory_rule_never_matches U (r : iKeystroke U) p ev w :
  In p (keys r) -> In p (except r) ->
  pure_rule r ev w ->
  returns (checkKeystroke r ev) w false.
Proof.
  intros Hk Hx Hpure.
  destruct (checkKeystroke_pure Hpure) as [bk [bx [HFk [HFx [Hrun _]]]]].
  destruct (@Forall2_In_left _ _ _ _ _ p HFk Hk) as [b1 [Hb1 Hr1]].
  destruct (@Forall2_In_left _ _ _ _ _ p HFx Hx) as [b2 [Hb2 Hr2]].
  assert (b1 = b2) by (unfold returns in *; congruence). subst b2.
  replace false with (forallb (fun b => b) bk && forallb negb bx); [exact Hrun|].
  destruct b1.
  - rewrite (@forallb_false_of_In _ negb bx true Hb2 eq_refl). apply andb_false_r.
  - now rewrite (@forallb_false_of_In _ (fun b => b) bk false Hb1 eq_refl).
Qed.

(** Shift itself does not satisfy a rule that requires and excludes
    Shift. *)
Lemma contradictory_rule_never_matches_witness :
  In Key.Shift (keys shiftAndNotShift) /\ In Key.Shift (except shiftAndNotShift) /\
  pure_rule shiftAndNotShift {| key := "Shift" |} winWorld /\
  returns (checkKeystroke shiftAndNotShift {| key := "Shift" |}) winWorld false.
Proof.
  assert (Hk : In Key.Shift (keys shiftAndNotShift)) by (simpl; auto).
  assert (Hx : In Key.Shift (except shiftAndNotShift)) by (simpl; auto).
  assert (Hpure : pure_rule shiftAndNotShift {| key := "Shift" |} winWorld).
  { intros p [<-|[<-|[<-|[]]]]; eexists; reflexivity. }
  split; [exact Hk|]. split; [exact Hx|]. split; [exact Hpure|].
  apply (@contradictory_rule_never_matches _ _ _ _ _ Hk Hx Hpure).
Defined.

(* ================================================================== *)
(** * The [Key] catalog                                                *)
(* ================================================================== *)

(** A literal entry compares [ev.key] with its constant and reads nothing
    else. *)
Lemma strictEq_returns U (a b : string) (w : World U) :
  returns (strictEq a b) w (a =? b)%string.
Proof. reflexivity. Qed.

(** The OS-aware entries, in a state where [isMacOS()] returns [macOS]. *)
Lemma os_aware_entries U (ev : Event) (w : World U) (macOS : bool) :
  returns isMacOS w macOS ->
  returns (Key.CtrlWin ev) w ((key ev =? "Control")%string && negb macOS) /\
  returns (Key.WindowsKey ev) w ((key ev =? "Meta")%string && negb macOS) /\
  returns (Key.CtrlMac ev) w ((key ev =? "Control")%string && macOS) /\
  returns (Key.Command ev) w ((key ev =? "Meta")%string && macOS) /\
  returns (Key.mod1 ev) w
    ((key ev =? "Control")%string && negb macOS
     || (key ev =? "Meta")%string && macOS) /\
  returns (Key.mod2 ev) w
    ((key ev =? "Control")%string && macOS
     || (key ev =? "Meta")%string && negb macOS).
Proof.
  intros Hmac.
  unfold Key.CtrlWin, Key.WindowsKey, Key.CtrlMac, Key.Command, Key.mod1, Key.mod2.
  unfold_entry.
  destruct (key ev =? "Control")%string, (key ev =? "Meta")%string;
    simpl; rewrite ?Hmac; destruct macOS; simpl; rewrite ?Hmac; repeat split.
Qed.

(** Where [isMacOS()] returns, every entry of the catalog is side-effect
    free. *)
Lemma catalog_side_effect_free U (p : CheckKeypress U) ev (w : World U) macOS :
  returns isMacOS w macOS -> In p catalog -> side_effect_free p ev w.
Proof.
  intros Hmac Hin.
  destruct (os_aware_entries ev Hmac) as [H1 [H2 [H3 [H4 [H5 H6]]]]].
  unfold catalog in Hin. simpl in Hin.
  repeat (destruct Hin as [<-|Hin]);
    try (eexists; first [apply strictEq_returns | eassumption]).
  contradiction.
Qed.

(** C5: every literal entry returns the result of the exact
    (case-sensitive) comparison of [ev.key] with its one constant; and in
    a state where [isMacOS()] returns [macOS], each OS-aware entry returns
    its combination of the literal comparison with [macOS].  The state at
    the time of the call is the one consulted: nothing is cached. *)
Theorem Key_catalog_spec U (ev : Event) (w : World U) :
  (returns (Key.Enter ev) w (key ev =? "Enter")%string /\
   returns (Key.Backspace ev) w (key ev =? "Backspace")%string /\
   returns (Key.Shift ev) w (key ev =? "Shift")%string /\
   returns (Key.Escape ev) w (key ev =? "Escape")%string /\
   returns (Key.Tab ev) w (key ev =? "Tab")%string /\
   returns (Key.Control ev) w (key ev =? "Control")%string /\
   returns (Key.Meta ev) w (key ev =? "Meta")%string /\
   returns (Key.Alt ev) w (key ev =? "Alt")%string /\
   returns (Key.Spacebar ev) w (key ev =? " ")%string /\
   returns (Key.Up ev) w (key ev =? "ArrowUp")%string /\
   returns (Key.Down ev) w (key ev =? "ArrowDown")%string /\
   returns (Key.Left ev) w (key ev =? "ArrowLeft")%string /\
   returns (Key.Right ev) w (key ev =? "ArrowRight")%string) /\
  (forall macOS : bool,
     returns isMacOS w macOS ->
     returns (Key.CtrlWin ev) w ((key ev =? "Control")%string && negb macOS) /\
     returns (Key.WindowsKey ev) w ((key ev =? "Meta")%string && negb macOS) /\
     returns (Key.CtrlMac ev) w ((key ev =? "Control")%string && macOS) /\
     returns (Key.Command ev) w ((key ev =? "Meta")%string && macOS) /\
     returns (Key.mod1 ev) w
       ((key ev =? "Control")%string && negb macOS
        || (key ev =? "Meta")%string && macOS) /\
     returns (Key.mod2 ev) w
       ((key ev =? "Control")%string && macOS
        || (key ev =? "Meta")%string && negb macOS)).
Proof.
  split.
  - repeat split; apply strictEq_returns.
  - intros macOS Hmac. exact (os_aware_entries ev Hmac).
Qed.

(** On a Mac, [mod1] accepts Meta; the comparison is exact, so a
    lower-case [enter] is not Enter. *)
Lemma Key_catalog_spec_witness :
  returns isMacOS macWorld true /\
  returns (Key.mod1 metaKey) macWorld true /\
  returns (Key.Enter {| key := "enter" |}) macWorld false.
Proof.
  assert (Hmac : returns isMacOS macWorld true) by reflexivity.
  split; [exact Hmac|]. split.
  - apply (proj2 (Key_catalog_spec metaKey macWorld) true Hmac).
  - apply (proj1 (Key_catalog_spec {| key := "enter" |} macWorld)).
Defined.

(** The key of an event cannot be both Control and Meta. *)
Lemma Control_Meta_disjoint (s : string) :
  (s =? "Control")%string && (s =? "Meta")%string = false.
Proof.
  destruct (s =? "Control")%string eqn:E; [|reflexivity].
  apply String.eqb_eq in E. now subst s.
Qed.

(** C6: [mod1] and [mod2] never both return [true] on one event in one
    state; where [isMacOS()] is [true], [mod1] returns [true] on Meta and
    [false] on Control, and where it is [false], [true] on Control and
    [false] on Meta. *)
Theorem mod1_mod2_exclusive U (ev : Event) (w : World U) :
  ~ (fst (Key.mod1 ev w) = Normal true /\ fst (Key.mod2 ev w) = Normal true) /\
  (returns isMacOS w true ->
     returns (Key.mod1 {| key := "Meta" |}) w true /\
     returns (Key.mod1 {| key := "Control" |}) w false) /\
  (returns isMacOS w false ->
     returns (Key.mod1 {| key := "Control" |}) w true /\
     returns (Key.mod1 {| key := "Meta" |}) w false).
Proof.
  split; [|split].
  - pose proof (Control_Meta_disjoint (key ev)) as Hdisj.
    pose proof (isMacOS_unfold w) as Hmac.
    destruct (getProperty (navigator w) "userAgent") as [v|e];
      [destruct (ToString v) as [s|e]; [destruct (RegExp_test "Mac" s)|]|];
      unfold Key.mod1, Key.mod2; unfold_entry;
      destruct (key ev =? "Control")%string, (key ev =? "Meta")%string;
      simpl in *; rewrite ?Hmac; simpl; intros [H1 H2]; congruence.
  - intros Hmac. split.
    + apply (os_aware_entries {| key := "Meta" |} Hmac).
    + apply (os_aware_entries {| key := "Control" |} Hmac).
  - intros Hmac. split.
    + apply (os_aware_entries {| key := "Control" |} Hmac).
    + apply (os_aware_entries {| key := "Meta" |} Hmac).
Qed.

(** On the Windows sample state, [mod1] is Control and [mod2] is Meta. *)
Lemma mod1_mod2_exclusive_witness :
  returns isMacOS winWorld false /\
  returns (Key.mod1 controlKey) winWorld true /\
  returns (Key.mod1 metaKey) winWorld false.
Proof.
  assert (Hwin : returns isMacOS winWorld false) by reflexivity.
  split; [exact Hwin|].
  apply (proj2 (proj2 (mod1_mod2_exclusive controlKey winWorld)) Hwin).
Defined.

(* ================================================================== *)
(** * Determinism of rule satisfaction                                 *)
(* ================================================================== *)

Lemma agree_ret U A (a : A) (w1 w2 : World U) : agree (ret a) w1 (ret a) w2.
Proof. now unfold agree, ret. Qed.

Lemma agree_bind U A B (m1 m2 : JS U A) (k1 k2 : A -> JS U B) (w1 w2 : World U) :
  agree m1 w1 m2 w2 ->
  (forall a, agree (k1 a) w1 (k2 a) w2) ->
  agree (bind m1 k1) w1 (bind m2 k2) w2.
Proof.
  unfold agree, bind. intros [Hfst [H1 H2]] Hk.
  destruct (m1 w1) as [c1 w1'], (m2 w2) as [c2 w2']. simpl in *. subst.
  destruct c2 as [a|e]; [apply Hk | now simpl].
Qed.

Lemma agree_isMacOS U (w1 w2 : World U) :
  fst (isMacOS w1) = fst (isMacOS w2) -> agree isMacOS w1 isMacOS w2.
Proof.
  intros H. repeat split; trivial; apply isMacOS_preserves_world.
Qed.

Lemma agree_not U (a1 a2 : JS U bool) (w1 w2 : World U) :
  agree a1 w1 a2 w2 -> agree (js_not a1) w1 (js_not a2) w2.
Proof. intros Ha. apply agree_bind; [exact Ha | intros x; apply agree_ret]. Qed.

Lemma agree_and U (a1 a2 b1 b2 : JS U bool) (w1 w2 : World U) :
  agree a1 w1 a2 w2 -> agree b1 w1 b2 w2 -> agree (a1 &&& b1) w1 (a2 &&& b2) w2.
Proof.
  intros Ha Hb. apply agree_bind; [exact Ha|].
  intros [|]; [exact Hb | apply agree_ret].
Qed.

Lemma agree_or U (a1 a2 b1 b2 : JS U bool) (w1 w2 : World U) :
  agree a1 w1 a2 w2 -> agree b1 w1 b2 w2 -> agree (a1 ||| b1) w1 (a2 ||| b2) w2.
Proof.
  intros Ha Hb. apply agree_bind; [exact Ha|].
  intros [|]; [apply agree_ret | exact Hb].
Qed.

Create HintDb agree.
#[local] Hint Resolve agree_ret agree_isMacOS agree_not agree_and agree_or : agree.

(** Every entry of the catalog depends on the key of the event and on
    what [isMacOS] answers, and on nothing else. *)
Lemma catalog_history_free U (p : CheckKeypress U) :
  In p catalog -> history_free p.
Proof.
  intros Hin ev1 ev2 w1 w2 Hkey Hmac.
  unfold catalog, Key.entries in Hin. simpl in Hin.
  repeat (destruct Hin as [<-|Hin]);
    try (unfold Key.Enter, Key.Backspace, Key.Shift, Key.Escape, Key.Tab,
           Key.Control, Key.Meta, Key.Alt, Key.Spacebar, Key.Up, Key.Down,
           Key.Left, Key.Right, Key.CtrlWin, Key.WindowsKey, Key.CtrlMac,
           Key.Command, Key.mod1, Key.mod2, strictEq;
         rewrite Hkey; auto 6 with agree).
  contradiction.
Qed.

(** The two reductions of the matcher inherit it from the predicates. *)
Lemma reduce_agree U (g1 g2 : CheckKeypress U -> JS U bool) ps (w1 w2 : World U) :
  (forall p, In p ps -> agree (g1 p) w1 (g2 p) w2) ->
  forall acc,
    agree (Array_reduce (fun a c => ret a &&& g1 c) ps acc) w1
          (Array_reduce (fun a c => ret a &&& g2 c) ps acc) w2.
Proof.
  induction ps as [|p ps IH]; intros Hps acc; simpl.
  - apply agree_ret.
  - apply agree_bind.
    + apply agree_and; [apply agree_ret | apply Hps; now left].
    + intros a. apply IH. intros q Hq. apply Hps. now right.
Qed.

Lemma checkKeystroke_history_free U (r : iKeystroke U) :
  (forall p, In p (keys r ++ except r) -> history_free p) ->
  history_free (checkKeystroke r).
Proof.
  intros Hps ev1 ev2 w1 w2 Hkey Hmac. unfold checkKeystroke.
  apply agree_and.
  - apply (@reduce_agree U (fun c => c ev1) (fun c => c ev2)).
    intros p Hp. apply Hps; trivial. apply in_or_app. now left.
  - apply (@reduce_agree U (fun c => js_not (c ev1)) (fun c => js_not (c ev2))).
    intros p Hp. apply agree_not, Hps; trivial. apply in_or_app. now right.
Qed.

(** The same rule on the same event, in two states: satisfied where the
    user agent is a Mac's, not satisfied where it is not. *)
Lemma checkKeystroke_depends_on_userAgent :
  checkKeystroke primaryModifier metaKey macWorld = (Normal true, macWorld) /\
  checkKeystroke primaryModifier metaKey winWorld = (Normal false, winWorld) /\
  fst (checkKeystroke primaryModifier metaKey macWorld)
  <> fst (checkKeystroke primaryModifier metaKey winWorld).
Proof.
  split; [reflexivity|]. split; [reflexivity|].
  vm_compute. discriminate.
Qed.

(** A predicate that is a pure function of the event is history free. *)
Lemma pure_function_history_free U (f : Event -> bool) :
  history_free (fun ev => @ret U bool (f ev)).
Proof.
  intros [k1] [k2] w1 w2 Hkey _. simpl in Hkey. subst k2. apply agree_ret.
Qed.

(** C8, as the code has it: rule satisfaction is history free up to the
    platform.  For every rule whose predicates depend on nothing but the
    key of the event and what [isMacOS()] answers, and change no state,
    two evaluations on events with equal keys, in two states in which
    [isMacOS()] answers the same, complete alike whatever else the two
    states hold; neither evaluation changes its state, so that an event
    object kept anywhere in that state reads the same afterwards.  Every
    entry of the catalog is such a predicate, and so is every pure
    function of the event. *)
Theorem checkKeystroke_deterministic U :
  (forall p : CheckKeypress U, In p catalog -> history_free p) /\
  (forall f : Event -> bool, history_free (fun ev => @ret U bool (f ev))) /\
  (forall (r : iKeystroke U) ev1 ev2 (w1 w2 : World U),
     (forall p, In p (keys r ++ except r) -> history_free p) ->
     key ev1 = key ev2 ->
     fst (isMacOS w1) = fst (isMacOS w2) ->
     fst (checkKeystroke r ev1 w1) = fst (checkKeystroke r ev2 w2) /\
     snd (checkKeystroke r ev1 w1) = w1 /\
     snd (checkKeystroke r ev2 w2) = w2 /\
     (forall eventOf : World U -> Event,
        eventOf (snd (checkKeystroke r ev1 w1)) = eventOf w1 /\
        eventOf (snd (checkKeystroke r ev2 w2)) = eventOf w2)).
Proof.
  split; [exact (@catalog_history_free U)|].
  split; [exact (@pure_function_history_free U)|].
  intros r ev1 ev2 w1 w2 Hps Hkey Hmac.
  destruct (@checkKeystroke_history_free U r Hps ev1 ev2 w1 w2 Hkey Hmac)
    as [Hfst [Hs1 Hs2]].
  repeat split; trivial; intros; now rewrite ?Hs1, ?Hs2.
Qed.

(** A rule with a user predicate and a catalog entry, on the letter k,
    in two Macs with different user agents and different logs. *)
Lemma checkKeystroke_deterministic_witness :
  (forall p, In p (keys kNotMod1 ++ except kNotMod1) -> history_free p) /\
  fst (isMacOS macWorld) = fst (isMacOS busyMacWorld) /\
  fst (checkKeystroke kNotMod1 {| key := "k" |} macWorld)
  = fst (checkKeystroke kNotMod1 {| key := "k" |} busyMacWorld).
Proof.
  assert (Hps : forall p, In p (keys kNotMod1 ++ except kNotMod1) -> history_free p).
  { intros p [<-|[<-|[]]].
    - apply (proj1 (proj2 (@checkKeystroke_deterministic Log))
               (fun ev => (key ev =? "k")%string)).
    - apply (proj1 (@checkKeystroke_deterministic Log)). unfold catalog. in_list. }
  assert (Hmac : fst (isMacOS macWorld) = fst (isMacOS busyMacWorld)) by reflexivity.
  split; [exact Hps|]. split; [exact Hmac|].
  apply (proj2 (proj2 (@checkKeystroke_deterministic Log))
           kNotMod1 {| key := "k" |} {| key := "k" |} macWorld busyMacWorld
           Hps eq_refl Hmac).
Defined.

(* ================================================================== *)
(** * The dispatcher                                                   *)
(* ================================================================== *)

(** One turn of the loop body of [handleKeyboard]. *)
Lemma handleKeyboard_cons U (r : iKeystroke U) rs ev w :
  handleKeyboard (r :: rs) ev w =
  match checkKeystroke r ev w with
  | (Normal true, w1) =>
      match cb r ev w1 with
      | (Normal _, w2) => handleKeyboard rs ev w2
      | (Throw e, w2) => (Throw e, w2)
      end
  | (Normal false, w1) => handleKeyboard rs ev w1
  | (Throw e, w1) => (Throw e, w1)
  end.
Proof.
  unfold handleKeyboard. simpl. unfold bind.
  destruct (checkKeystroke r ev w) as [[[|]|e] w1]; simpl; trivial.
Qed.

(** The loop over a concatenation: the second part runs from the state
    the first part ends in, and only if the first part did not throw. *)
Lemma handleKeyboard_app U (rs1 rs2 : list (iKeystroke U)) ev w :
  handleKeyboard (rs1 ++ rs2) ev w =
  match handleKeyboard rs1 ev w with
  | (Normal _, w1) => handleKeyboard rs2 ev w1
  | (Throw e, w1) => (Throw e, w1)
  end.
Proof.
  revert w. induction rs1 as [|r rs1 IH]; intros w.
  - reflexivity.
  - simpl app. rewrite !handleKeyboard_cons.
    destruct (checkKeystroke r ev w) as [[[|]|e] w1]; trivial.
    destruct (cb r ev w1) as [[u|e] w2]; trivial.
Qed.

(** With verdicts [m] that hold throughout the states the callbacks can
    reach, the dispatcher is the loop over the rules [m] selects. *)
Lemma handleKeyboard_filter U (Inv : World U -> Prop) (m : iKeystroke U -> bool)
    (rules : list (iKeystroke U)) ev :
  (forall r w, In r rules -> Inv w -> returns (checkKeystroke r ev) w (m r)) ->
  (forall r w, In r rules -> Inv w -> Inv (snd (cb r ev w))) ->
  forall w, Inv w ->
    handleKeyboard rules ev w
    = Array_forEach (fun r => cb r ev) (filter m rules) w.
Proof.
  induction rules as [|r rules IH]; intros Hcheck Hcb w Hw.
  - reflexivity.
  - assert (Hin : In r (r :: rules)) by now left.
    assert (IH' : forall w', Inv w' ->
              handleKeyboard rules ev w'
              = Array_forEach (fun r => cb r ev) (filter m rules) w').
    { apply IH; intros q w' Hq; [apply Hcheck | apply Hcb]; now right. }
    rewrite handleKeyboard_cons, (Hcheck r w Hin Hw). simpl filter.
    destruct (m r).
    + simpl Array_forEach. unfold bind.
      pose proof (Hcb r w Hin Hw) as Hw2.
      destruct (cb r ev w) as [[u|e] w2]; [apply IH', Hw2 | reflexivity].
    + apply IH', Hw.
Qed.

(** C2: when checking a rule is side-effect free and its verdict on the
    event is not changed by what the callbacks do, the dispatcher behaves
    as the loop that calls, with the event, the callbacks of exactly the
    satisfied rules in the order of the rule set; when no rule is
    satisfied it returns normally and the state is untouched. *)
Theorem handleKeyboard_fires_matching U (Inv : World U -> Prop)
    (rules : list (iKeystroke U)) ev w :
  Inv w ->
  (forall r w', In r rules -> Inv w' ->
     returns (checkKeystroke r ev) w' (satisfied r ev w)) ->
  (forall r w', In r rules -> Inv w' -> Inv (snd (cb r ev w'))) ->
  handleKeyboard rules ev w
  = Array_forEach (fun r => cb r ev) (filter (fun r => satisfied r ev w) rules) w
  /\ (filter (fun r => satisfied r ev w) rules = [] ->
      handleKeyboard rules ev w = (Normal tt, w)).
Proof.
  intros Hw Hcheck Hcb.
  assert (Heq : handleKeyboard rules ev w
                = Array_forEach (fun r => cb r ev)
                    (filter (fun r => satisfied r ev w) rules) w).
  { now apply (@handleKeyboard_filter U Inv (fun r => satisfied r ev w)). }
  split; [exact Heq|].
  intros Hnone. rewrite Heq, Hnone. reflexivity.
Qed.

(** Enter on the sample rules: the first and the third rule fire, in
    that order, the second does not. *)
Lemma handleKeyboard_fires_matching_witness :
  handleKeyboard sampleRules enterKey macWorld
  = (Normal tt,
     {| navigator := navigator macWorld;
        user := ["first:Enter"; "third:Enter"] |}).
Proof.
  assert (Hcheck : forall r w', In r sampleRules ->
            navigator w' = navigator macWorld ->
            returns (checkKeystroke r enterKey) w' (satisfied r enterKey macWorld)).
  { intros r [nav usr] [<-|[<-|[<-|[]]]] Hw'; simpl in Hw'; subst nav; reflexivity. }
  assert (Hcb : forall r w', In r sampleRules ->
            navigator w' = navigator macWorld ->
            navigator (snd (cb r enterKey w')) = navigator macWorld).
  { intros r w' [<-|[<-|[<-|[]]]] Hw'; exact Hw'. }
  rewrite (proj1 (@handleKeyboard_fires_matching Log
             (fun w' => navigator w' = navigator macWorld)
             sampleRules enterKey macWorld eq_refl Hcheck Hcb)).
  reflexivity.
Defined.

(** For rules written with the catalog, in a state where [isMacOS()]
    returns, it is enough that no callback changes what [isMacOS()]
    answers. *)
Lemma handleKeyboard_catalog_rules U (rules : list (iKeystroke U)) ev (w : World U) :
  (forall r p, In r rules -> In p (keys r ++ except r) -> In p catalog) ->
  (exists macOS, returns isMacOS w macOS) ->
  (forall r w', In r rules -> fst (isMacOS (snd (cb r ev w'))) = fst (isMacOS w')) ->
  handleKeyboard rules ev w
  = Array_forEach (fun r => cb r ev) (filter (fun r => satisfied r ev w) rules) w.
Proof.
  intros Hcat [macOS Hmac] Hcb.
  apply (@handleKeyboard_filter U
           (fun w' => fst (isMacOS w') = fst (isMacOS w))
           (fun r => satisfied r ev w)).
  - intros r w' Hr Hw'.
    assert (Hhf : history_free (checkKeystroke r)).
    { apply checkKeystroke_history_free. intros p Hp.
      apply catalog_history_free, (Hcat r p Hr Hp). }
    destruct (Hhf ev ev w' w eq_refl Hw') as [Hfst [Hsnd _]].
    assert (Hpure : pure_rule r ev w).
    { intros p Hp. apply catalog_side_effect_free with (macOS := macOS); trivial.
      apply (Hcat r p Hr Hp). }
    destruct (checkKeystroke_pure Hpure) as [bk [bx [_ [_ [Hrun _]]]]].
    unfold returns in *. unfold satisfied.
    rewrite (surjective_pairing (checkKeystroke r ev w')), Hfst, Hsnd, Hrun.
    simpl. now destruct (forallb (fun b => b) bk && forallb negb bx).
  - intros r w' Hr Hw'. now rewrite Hcb.
  - reflexivity.
Qed.

(** C9: when the callback of a satisfied rule throws, the dispatcher
    completes with that very exception, in the state the callback left:
    the effects of the rules before it are kept, and no rule after it is
    looked at. *)
Theorem handleKeyboard_propagates_throw U (before after : list (iKeystroke U))
    (r : iKeystroke U) ev (w w1 w2 w3 : World U) (e : Exn) :
  handleKeyboard before ev w = (Normal tt, w1) ->
  checkKeystroke r ev w1 = (Normal true, w2) ->
  cb r ev w2 = (Throw e, w3) ->
  handleKeyboard (before ++ r :: after) ev w = (Throw e, w3).
Proof.
  intros Hbefore Hcheck Hcb.
  rewrite handleKeyboard_app, Hbefore, handleKeyboard_cons, Hcheck, Hcb.
  reflexivity.
Qed.

(** Three rules on Enter, the second throwing: the log holds the lines
    of the first and of the second, not of the third. *)
Lemma handleKeyboard_propagates_throw_witness :
  handleKeyboard ([enterLogs "first"] ++ enterThrows "boom" :: [enterLogs "later"])
    enterKey macWorld
  = (Throw (Thrown (VString "boom")),
     {| navigator := navigator macWorld; user := ["first:Enter"; "boom:Enter"] |}).
Proof.
  apply (@handleKeyboard_propagates_throw Log [enterLogs "first"] [enterLogs "later"]
           (enterThrows "boom") enterKey macWorld
           {| navigator := navigator macWorld; user := ["first:Enter"] |}
           {| navigator := navigator macWorld; user := ["first:Enter"] |});
    reflexivity.
Defined.

(* ================================================================== *)
(** * Further properties of the platform detector                      *)
(* ================================================================== *)

(** X1: when the value read from [navigator.userAgent] is a primitive
    other than a symbol, that is [undefined], [null], a boolean or a
    string, [isMacOS()] returns [true] exactly when that value is a
    string in which [Mac] occurs; [undefined], [null], [true] and
    [false] are all classified as not macOS. *)
Theorem isMacOS_true_iff_on_primitives U (w w' : World U) (v : Value) :
  getProperty (navigator w) "userAgent" = Normal v ->
  v = VUndefined \/ v = VNull \/ (exists b, v = VBoolean b) \/ (exists s, v = VString s) ->
  (isMacOS w = (Normal true, w') <->
   w' = w /\ exists s, v = VString s /\ contains "Mac" s).
Proof.
  intros Hget Hv. rewrite isMacOS_unfold, Hget. split.
  - intros H. assert (Hw : w' = w) by now inversion H. subst w'.
    split; [reflexivity|].
    apply (f_equal fst) in H. simpl in H.
    destruct Hv as [->|[->|[[b ->]|[s ->]]]]; simpl in H; try discriminate.
    + destruct b; discriminate.
    + exists s. split; [reflexivity|]. apply RegExp_test_contains. congruence.
  - intros [-> [s [-> Hmac]]]. simpl.
    apply RegExp_test_contains in Hmac. now rewrite Hmac.
Qed.

(** The Mac sample state: its user agent is a string in which [Mac]
    occurs, and the call returns [true]. *)
Lemma isMacOS_true_iff_on_primitives_witness :
  (isMacOS macWorld = (Normal true, macWorld) <->
   macWorld = macWorld /\
   exists s, VString "Mozilla/5.0 (Macintosh; Intel Mac OS X 10_15_7)" = VString s /\
             contains "Mac" s)
  /\ isMacOS macWorld = (Normal true, macWorld).
Proof.
  assert (Hiff := @isMacOS_true_iff_on_primitives Log macWorld macWorld
            (VString "Mozilla/5.0 (Macintosh; Intel Mac OS X 10_15_7)") eq_refl
            (or_intror (or_intror (or_intror
               (ex_intro _ "Mozilla/5.0 (Macintosh; Intel Mac OS X 10_15_7)" eq_refl))))).
  split; [exact Hiff|]. apply Hiff. split; [reflexivity|].
  eexists. split; [reflexivity|].
  apply RegExp_test_contains. vm_compute. reflexivity.
Defined.

(* ================================================================== *)
(** * Properties of the unit-test module                               *)
(* ================================================================== *)

(** After the mock the detector cannot throw: it answers by the
    substring test, whatever the navigator was before. *)
Lemma isMacOS_after_mock U (s : string) (w : World U) :
  isMacOS (mockUserAgent s w) = (Normal (RegExp_test "Mac" s), mockUserAgent s w).
Proof. now apply isMacOS_userAgent_string with (props := [("userAgent", VString s)]). Qed.

(** X2: one step of the test module, run from any state (a state with
    no navigator included).  When the expected value agrees with the
    substring test the step returns and the navigator is the original one
    again; when it does not, the assertion throws before the navigator is
    restored, which is left as the mock. *)
Theorem testStep_outcome U (assertEquals : bool -> bool -> string -> JS U unit)
    (originalNavigator : Value) (t : TestCase) (w : World U) :
  assertEquals_contract assertEquals ->
  ((expected t = true <-> contains "Mac" (ua t)) ->
   testStep assertEquals originalNavigator t w
   = (Normal tt, {| navigator := originalNavigator; user := user w |})) /\
  (~ (expected t = true <-> contains "Mac" (ua t)) ->
   exists err,
     testStep assertEquals originalNavigator t w
     = (Throw err, mockUserAgent (ua t) w)).
Proof.
  intros Hassert.
  unfold testStep, bind, defineNavigator.
  fold (mockUserAgent (ua t) w). rewrite isMacOS_after_mock.
  destruct (Hassert (RegExp_test "Mac" (ua t)) (expected t)
              ("Failed for test case: " ++ name t)%string
              (mockUserAgent (ua t) w)) as [Hsame Hdiff].
  pose proof (RegExp_test_contains "Mac" (ua t)) as Hspec.
  split; intros Hexp.
  - rewrite Hsame; [reflexivity|].
    destruct (RegExp_test "Mac" (ua t)), (expected t); trivial.
    + symmetry. apply Hexp, Hspec. reflexivity.
    + apply Hspec, Hexp. reflexivity.
  - destruct Hdiff as [err Herr].
    + intros Heq. apply Hexp. rewrite <- Heq. exact Hspec.
    + exists err. now rewrite Herr.
Qed.

Lemma assertEqualsBool_contract U : assertEquals_contract (@assertEqualsBool U).
Proof.
  intros actual expected msg w. unfold assertEqualsBool. split.
  - intros ->. now rewrite Bool.eqb_reflx.
  - intros Hne. destruct (Bool.eqb actual expected) eqn:E.
    + apply Bool.eqb_prop in E. contradiction.
    + eexists. reflexivity.
Qed.

(** The Windows case passes from a state without navigator; the iPhone
    case throws and leaves the mocked navigator behind. *)
Lemma testStep_outcome_witness :
  testStep assertEqualsBool VNull windowsCase bareWorld
  = (Normal tt, {| navigator := VNull; user := [] |})
  /\ exists err,
       testStep assertEqualsBool VNull iPhoneCase bareWorld
       = (Throw err, mockUserAgent iPhoneUserAgent bareWorld).
Proof.
  split.
  - apply (proj1 (testStep_outcome VNull windowsCase bareWorld
                    (@assertEqualsBool_contract Log))).
    split; [discriminate|].
    intros H. apply RegExp_test_contains in H. vm_compute in H. discriminate.
  - apply (proj2 (testStep_outcome VNull iPhoneCase bareWorld
                    (@assertEqualsBool_contract Log))).
    intros [_ H].
    assert (Hmac : contains "Mac" iPhoneUserAgent)
      by (apply RegExp_test_contains; vm_compute; reflexivity).
    specialize (H Hmac). discriminate.
Defined.

(* ================================================================== *)
(** * Further properties of the [Key] catalog                          *)
(* ================================================================== *)

Lemma strictEq_true U (a b : string) (w w' : World U) :
  strictEq a b w = (Normal true, w') -> a = b.
Proof.
  unfold strictEq, ret. intros H. apply String.eqb_eq. now inversion H.
Qed.

(** What a literal entry accepts: the one key it is declared with. *)
Lemma literal_entry_key U (n : string) (p : CheckKeypress U) :
  In (n, p) literalNamedEntries ->
  exists c, In (n, c)
              [ ("Enter", "Enter"); ("Backspace", "Backspace"); ("Shift", "Shift");
                ("Escape", "Escape"); ("Tab", "Tab"); ("Control", "Control");
                ("Meta", "Meta"); ("Alt", "Alt"); ("Spacebar", " ");
                ("Up", "ArrowUp"); ("Down", "ArrowDown"); ("Left", "ArrowLeft");
                ("Right", "ArrowRight") ]
            /\ forall ev (w w' : World U), p ev w = (Normal true, w') -> key ev = c.
Proof.
  intros Hin. unfold literalNamedEntries, Key.entries in Hin. simpl in Hin.
  repeat (destruct Hin as [Hin|Hin];
          [inversion Hin; subst n p; eexists; split;
           [in_list | intros ev w w' H; exact (@strictEq_true U _ _ _ _ H)]|]).
  contradiction.
Qed.

(** X3: no event satisfies two differently named literal entries of the
    catalog: of Enter, Backspace, Shift, Escape, Tab, Control, Meta, Alt,
    Spacebar, Up, Down, Left and Right, any two are incompatible. *)
Theorem literal_entries_exclusive U (n1 n2 : string) (p q : CheckKeypress U) :
  In (n1, p) literalNamedEntries -> In (n2, q) literalNamedEntries ->
  n1 <> n2 ->
  incompatible p q.
Proof.
  intros Hp Hq Hne ev w1 w1' w2 w2' Hpt Hqt.
  destruct (literal_entry_key Hp) as [c1 [Hc1 Hk1]].
  destruct (literal_entry_key Hq) as [c2 [Hc2 Hk2]].
  pose proof (Hk1 ev w1 w1' Hpt) as E1. pose proof (Hk2 ev w2 w2' Hqt) as E2.
  assert (Hc : c1 = c2) by congruence. clear Hk1 Hk2 Hpt Hqt E1 E2. subst c2.
  simpl in Hc1, Hc2.
  repeat (destruct Hc1 as [Hc1|Hc1]; [inversion Hc1; subst n1 c1; clear Hc1|]);
    try contradiction;
    repeat (destruct Hc2 as [Hc2|Hc2]; [inversion Hc2; try subst n2; clear Hc2|]);
    try contradiction; try discriminate; now elim Hne.
Qed.

(** ArrowUp is Up and therefore not Down. *)
Lemma literal_entries_exclusive_witness :
  In ("Up", @Key.Up Log) literalNamedEntries /\
  In ("Down", @Key.Down Log) literalNamedEntries /\
  "Up" <> "Down" /\
  Key.Down {| key := "ArrowUp" |} macWorld <> (Normal true, macWorld).
Proof.
  assert (Hu : In ("Up", @Key.Up Log) literalNamedEntries)
    by (unfold literalNamedEntries; in_list).
  assert (Hd : In ("Down", @Key.Down Log) literalNamedEntries)
    by (unfold literalNamedEntries; in_list).
  assert (Hne : "Up" <> "Down") by discriminate.
  split; [exact Hu|]. split; [exact Hd|]. split; [exact Hne|].
  intros Hdown.
  apply (@literal_entries_exclusive Log "Up" "Down" Key.Up Key.Down Hu Hd Hne
           {| key := "ArrowUp" |} macWorld macWorld macWorld macWorld eq_refl Hdown).
Defined.

Lemma eqb_false_of_neq (a b : string) : a <> b -> (a =? b)%string = false.
Proof. intros H. now apply String.eqb_neq. Qed.

(** X4: on a key that is neither Control nor Meta no entry of the
    catalog looks at the platform: every entry returns without touching
    the state, and the six OS-aware ones return [false], in every state,
    one without a navigator included. *)
Theorem catalog_safe_on_other_keys U (p : CheckKeypress U) ev (w : World U) :
  key ev <> "Control" -> key ev <> "Meta" ->
  In p catalog ->
  side_effect_free p ev w /\ (In p osAwareEntries -> returns (p ev) w false).
Proof.
  intros Hc Hm Hin.
  apply eqb_false_of_neq in Hc. apply eqb_false_of_neq in Hm.
  assert (Hos : forall q, In q osAwareEntries -> returns (q ev) w false).
  { intros q Hq. unfold osAwareEntries in Hq. simpl in Hq.
    repeat (destruct Hq as [<-|Hq]); try contradiction;
      unfold Key.CtrlWin, Key.WindowsKey, Key.CtrlMac, Key.Command,
        Key.mod1, Key.mod2; unfold_entry; rewrite ?Hc, ?Hm; reflexivity. }
  split; [|apply Hos].
  unfold catalog in Hin. simpl in Hin.
  do 13 (destruct Hin as [<-|Hin]; [eexists; apply strictEq_returns|]).
  exists false. apply Hos. unfold osAwareEntries. simpl. tauto.
Qed.

(** Enter in a state without navigator: [mod1] returns [false]. *)
Lemma catalog_safe_on_other_keys_witness :
  key enterKey <> "Control" /\ key enterKey <> "Meta" /\
  In (@Key.mod1 Log) catalog /\
  returns (Key.mod1 enterKey) bareWorld false.
Proof.
  assert (Hc : key enterKey <> "Control") by discriminate.
  assert (Hm : key enterKey <> "Meta") by discriminate.
  assert (Hin : In (@Key.mod1 Log) catalog) by (unfold catalog; in_list).
  split; [exact Hc|]. split; [exact Hm|]. split; [exact Hin|].
  apply (proj2 (@catalog_safe_on_other_keys Log Key.mod1 enterKey bareWorld Hc Hm Hin)).
  unfold osAwareEntries. in_list.
Defined.

(** X5: where [isMacOS()] throws, the OS-aware entries throw the same
    exception as soon as the key is one they have to classify: on Control
    [CtrlWin], [CtrlMac], [mod1] and [mod2], on Meta [WindowsKey],
    [Command], [mod1] and [mod2]. *)
Theorem os_aware_entries_throw U ev (w : World U) (e : Exn) :
  isMacOS w = (Throw e, w) ->
  (key ev = "Control" ->
   Key.CtrlWin ev w = (Throw e, w) /\ Key.CtrlMac ev w = (Throw e, w) /\
   Key.mod1 ev w = (Throw e, w) /\ Key.mod2 ev w = (Throw e, w)) /\
  (key ev = "Meta" ->
   Key.WindowsKey ev w = (Throw e, w) /\ Key.Command ev w = (Throw e, w) /\
   Key.mod1 ev w = (Throw e, w) /\ Key.mod2 ev w = (Throw e, w)).
Proof.
  intros Hthrow.
  split; intros Hkey;
    unfold Key.CtrlWin, Key.WindowsKey, Key.CtrlMac, Key.Command, Key.mod1, Key.mod2;
    unfold_entry; rewrite Hkey; simpl; rewrite ?Hthrow; simpl; rewrite ?Hthrow;
    repeat split.
Qed.

(** Without a navigator, [mod1] on Control throws a [TypeError]. *)
Lemma os_aware_entries_throw_witness :
  isMacOS bareWorld = (Throw TypeError, bareWorld) /\
  Key.mod1 controlKey bareWorld = (Throw TypeError, bareWorld).
Proof.
  assert (Hthrow : isMacOS bareWorld = (Throw TypeError, bareWorld)) by reflexivity.
  split; [exact Hthrow|].
  apply (proj1 (os_aware_entries_throw controlKey Hthrow) eq_refl).
Defined.

(** X6: where [isMacOS()] returns, the OS-aware entries split the two
    modifier keys between them: Control is [CtrlWin] or [CtrlMac] and
    never both, Meta is [WindowsKey] or [Command] and never both, [mod1]
    is [CtrlWin] or [Command], [mod2] is [CtrlMac] or [WindowsKey], and
    one of [mod1], [mod2] holds exactly on Control and Meta. *)
Theorem modifier_entries_partition U ev (w : World U) (macOS : bool) :
  returns isMacOS w macOS ->
  exists control meta ctrlWin windowsKey ctrlMac command m1 m2 : bool,
    (returns (Key.Control ev) w control /\ returns (Key.Meta ev) w meta /\
     returns (Key.CtrlWin ev) w ctrlWin /\ returns (Key.WindowsKey ev) w windowsKey /\
     returns (Key.CtrlMac ev) w ctrlMac /\ returns (Key.Command ev) w command /\
     returns (Key.mod1 ev) w m1 /\ returns (Key.mod2 ev) w m2) /\
    control = xorb ctrlWin ctrlMac /\
    meta = xorb windowsKey command /\
    ctrlWin && ctrlMac = false /\
    windowsKey && command = false /\
    m1 = ctrlWin || command /\
    m2 = ctrlMac || windowsKey /\
    xorb m1 m2 = control || meta.
Proof.
  intros Hmac.
  destruct (os_aware_entries ev Hmac) as [H1 [H2 [H3 [H4 [H5 H6]]]]].
  pose proof (Control_Meta_disjoint (key ev)) as Hdisj.
  do 8 eexists. split.
  - repeat split; first [apply strictEq_returns | eassumption].
  - destruct (key ev =? "Control")%string, (key ev =? "Meta")%string;
      simpl in Hdisj; try discriminate; destruct macOS; repeat split.
Qed.

(** Meta on a Mac: [Command] and [mod1]. *)
Lemma modifier_entries_partition_witness :
  returns isMacOS macWorld true /\
  exists control meta ctrlWin windowsKey ctrlMac command m1 m2 : bool,
    (returns (Key.Control metaKey) macWorld control /\
     returns (Key.Meta metaKey) macWorld meta /\
     returns (Key.CtrlWin metaKey) macWorld ctrlWin /\
     returns (Key.WindowsKey metaKey) macWorld windowsKey /\
     returns (Key.CtrlMac metaKey) macWorld ctrlMac /\
     returns (Key.Command metaKey) macWorld command /\
     returns (Key.mod1 metaKey) macWorld m1 /\
     returns (Key.mod2 metaKey) macWorld m2) /\
    control = xorb ctrlWin ctrlMac /\
    meta = xorb windowsKey command /\
    ctrlWin && ctrlMac = false /\
    windowsKey && command = false /\
    m1 = ctrlWin || command /\
    m2 = ctrlMac || windowsKey /\
    xorb m1 m2 = control || meta.
Proof.
  assert (Hmac : returns isMacOS macWorld true) by reflexivity.
  split; [exact Hmac|].
  apply (modifier_entries_partition metaKey Hmac).
Defined.

(* ================================================================== *)
(** * Further properties of the matcher                                *)
(* ================================================================== *)

(** The matcher as two reductions in sequence, the second one run only
    after a [true] from the first. *)
Lemma checkKeystroke_unfold U (r : iKeystroke U) ev (w : World U) :
  checkKeystroke r ev w =
  match Array_reduce (fun a (c : CheckKeypress U) => ret a &&& c ev) (keys r) true w with
  | (Normal true, w1) =>
      Array_reduce (fun a (c : CheckKeypress U) => ret a &&& js_not (c ev))
        (except r) true w1
  | (Normal false, w1) => (Normal false, w1)
  | (Throw e, w1) => (Throw e, w1)
  end.
Proof.
  unfold checkKeystroke, js_and at 1, bind.
  assert (E : Array_reduce (fun a c => ret a &&& c ev) (keys r) true w
              = Array_reduce (fun a (c : CheckKeypress U) => ret a &&& c ev)
                  (keys r) true w) by reflexivity.
  rewrite E.
  destruct (Array_reduce (fun a (c : CheckKeypress U) => ret a &&& c ev) (keys r) true w)
    as [[[|]|e] w1]; reflexivity.
Qed.

Lemma reduce_app U A B (f : B -> A -> JS U B) (l1 l2 : list A) (acc : B) (w : World U) :
  Array_reduce f (l1 ++ l2) acc w =
  match Array_reduce f l1 acc w with
  | (Normal a, w1) => Array_reduce f l2 a w1
  | (Throw e, w1) => (Throw e, w1)
  end.
Proof.
  revert acc w. induction l1 as [|x l1 IH]; intros acc w; simpl.
  - reflexivity.
  - unfold bind. destruct (f acc x w) as [[a|e] w1]; [apply IH | reflexivity].
Qed.

(** The first call that does not keep the accumulator [true] decides the
    reduction: a [false] silences every later element, a throw leaves
    the loop. *)
Lemma reduce_first_failure U (g : CheckKeypress U -> JS U bool) ev v
    pre p post (w w1 w2 : World U) (c : Completion bool) :
  (forall q w0 w0', g q w0 = (Normal true, w0') <-> q ev w0 = (Normal v, w0')) ->
  all_return v pre ev w w1 ->
  g p w1 = (c, w2) ->
  c <> Normal true ->
  Array_reduce (fun a c => ret a &&& g c) (pre ++ p :: post) true w
  = (match c with Normal _ => Normal false | Throw e => Throw e end, w2).
Proof.
  intros Hg Hpre Hp Hc.
  rewrite reduce_app.
  rewrite (proj2 (@reduce_true_iff U g ev v pre Hg w w1) Hpre).
  simpl. unfold bind at 1. rewrite js_and_ret, Hp.
  destruct c as [[|]|e]; [now elim Hc | apply reduce_false | reflexivity].
Qed.

Lemma all_return_In U v (ps : list (CheckKeypress U)) ev (w w' : World U) p :
  all_return v ps ev w w' -> In p ps ->
  exists wa wb, p ev wa = (Normal v, wb).
Proof.
  revert w. induction ps as [|q ps IH]; intros w Hall Hin; [easy|].
  destruct Hall as [w1 [Hq Hrest]]. destruct Hin as [->|Hin].
  - now exists w, w1.
  - apply (IH w1 Hrest Hin).
Qed.

(** X7: a rule whose [keys] hold two predicates that no event satisfies
    together never returns [true], whatever its other predicates are and
    do.  Such is a rule that asks one event to be two different keys. *)
Theorem incompatible_keys_never_match U (r : iKeystroke U) (p q : CheckKeypress U)
    ev (w w' : World U) :
  In p (keys r) -> In q (keys r) -> incompatible p q ->
  checkKeystroke r ev w <> (Normal true, w').
Proof.
  intros Hp Hq Hinc Htrue.
  apply checkKeystroke_true_general in Htrue. destruct Htrue as [w1 [Hkeys _]].
  destruct (@all_return_In U _ _ _ _ _ p Hkeys Hp) as [wa [wb Hpt]].
  destruct (@all_return_In U _ _ _ _ _ q Hkeys Hq) as [wc [wd Hqt]].
  exact (Hinc ev wa wb wc wd Hpt Hqt).
Qed.

Lemma Shift_Enter_incompatible U : incompatible (@Key.Shift U) Key.Enter.
Proof.
  intros ev w1 w1' w2 w2' Hs He.
  apply strictEq_true in Hs. apply strictEq_true in He. congruence.
Qed.

(** The README rule on mod1, Shift and Enter does not match Enter, nor
    anything else. *)
Lemma incompatible_keys_never_match_witness :
  In Key.Shift (keys modShiftEnter) /\ In Key.Enter (keys modShiftEnter) /\
  checkKeystroke modShiftEnter enterKey macWorld <> (Normal true, macWorld).
Proof.
  assert (Hs : In Key.Shift (keys modShiftEnter)) by in_list.
  assert (He : In Key.Enter (keys modShiftEnter)) by in_list.
  split; [exact Hs|]. split; [exact He|].
  apply (@incompatible_keys_never_match Log modShiftEnter Key.Shift Key.Enter
           enterKey macWorld macWorld Hs He (@Shift_Enter_incompatible Log)).
Defined.

(** X8: a rule that requires [p] and excludes a [q] that holds whenever
    [p] does never returns [true], whatever its other predicates are and
    do. *)
Theorem entailed_exclusion_never_matches U (r : iKeystroke U) (p q : CheckKeypress U)
    ev (w w' : World U) :
  In p (keys r) -> In q (except r) -> entails p q ->
  checkKeystroke r ev w <> (Normal true, w').
Proof.
  intros Hp Hq Hent Htrue.
  apply checkKeystroke_true_general in Htrue. destruct Htrue as [w1 [Hkeys Hexc]].
  destruct (@all_return_In U _ _ _ _ _ p Hkeys Hp) as [wa [wb Hpt]].
  destruct (@all_return_In U _ _ _ _ _ q Hexc Hq) as [wc [wd Hqf]].
  exact (Hent ev wa wb wc wd Hpt Hqf).
Qed.

Lemma CtrlWin_entails_Control U : entails (@Key.CtrlWin U) Key.Control.
Proof.
  intros ev w1 w1' w2 w2' Hp Hq.
  unfold Key.CtrlWin, Key.Control in *. unfold_entry.
  destruct (key ev =? "Control")%string; simpl in *; discriminate.
Qed.

(** Control on Windows, for the rule "CtrlWin and not Control". *)
Lemma entailed_exclusion_never_matches_witness :
  In Key.CtrlWin (keys ctrlWinNotControl) /\ In Key.Control (except ctrlWinNotControl) /\
  checkKeystroke ctrlWinNotControl controlKey winWorld <> (Normal true, winWorld).
Proof.
  assert (Hp : In Key.CtrlWin (keys ctrlWinNotControl)) by in_list.
  assert (Hq : In Key.Control (except ctrlWinNotControl)) by in_list.
  split; [exact Hp|]. split; [exact Hq|].
  apply (@entailed_exclusion_never_matches Log ctrlWinNotControl Key.CtrlWin Key.Control
           controlKey winWorld winWorld Hp Hq (@CtrlWin_entails_Control Log)).
Defined.

Lemma js_not_completes U (m : JS U bool) (w w' : World U) (c : Completion bool) :
  m w = (c, w') ->
  js_not m w = (match c with Normal b => Normal (negb b) | Throw e => Throw e end, w').
Proof. unfold js_not, bind, ret. intros ->. now destruct c. Qed.

(** X9: the first predicate that does not complete with the value asked
    of it decides the matcher, and no later predicate of either list is
    called: in [keys], after predicates that all returned [true], a
    predicate that returns [false] or throws; in [except], after [keys]
    all returned [true] and earlier excluded predicates all returned
    [false], a predicate that returns [true] or throws.  The matcher
    completes with [false], or with the exception, in the state that
    predicate left. *)
Theorem checkKeystroke_first_deviation_decides U (r : iKeystroke U) ev (w : World U) :
  (forall pre p post (w1 w2 : World U) (c : Completion bool),
     keys r = pre ++ p :: post ->
     all_return true pre ev w w1 ->
     p ev w1 = (c, w2) -> c <> Normal true ->
     checkKeystroke r ev w = (rejection c, w2)) /\
  (forall pre p post (w1 w2 w3 : World U) (c : Completion bool),
     all_return true (keys r) ev w w1 ->
     except r = pre ++ p :: post ->
     all_return false pre ev w1 w2 ->
     p ev w2 = (c, w3) -> c <> Normal false ->
     checkKeystroke r ev w = (rejection c, w3)).
Proof.
  split.
  - intros pre p post w1 w2 c Hkeys Hpre Hp Hc.
    rewrite checkKeystroke_unfold, Hkeys.
    rewrite (@reduce_first_failure U (fun c => c ev) ev true pre p post w w1 w2 c
               (fun q w0 w0' => iff_refl _) Hpre Hp Hc).
    now destruct c as [[|]|e].
  - intros pre p post w1 w2 w3 c Hkeys Hexc Hpre Hp Hc.
    rewrite checkKeystroke_unfold.
    rewrite (proj2 (@reduce_true_iff U (fun c => c ev) ev true (keys r)
                      (fun q w0 w0' => iff_refl _) w w1) Hkeys).
    rewrite Hexc.
    rewrite (@reduce_first_failure U (fun c => js_not (c ev)) ev false pre p post
               w1 w2 w3 _
               (fun q w0 w0' => js_not_true_iff (q ev) w0 w0') Hpre
               (js_not_completes (p ev) w2 Hp)).
    + now destruct c as [[|]|e].
    + destruct c as [[|]|e]; try discriminate. now elim Hc.
Qed.

(** Enter on a rule that asks for Tab first: the predicate that would
    write to the log and the ones that would throw are never called.
    Enter on a rule that asks for Enter and then throws: the exception
    comes out. *)
Lemma checkKeystroke_first_deviation_decides_witness :
  checkKeystroke tabNoisyFailing enterKey macWorld = (Normal false, macWorld) /\
  checkKeystroke enterFailing enterKey macWorld
  = (Throw (Thrown (VString "failing")), macWorld).
Proof.
  split.
  - apply (proj1 (checkKeystroke_first_deviation_decides tabNoisyFailing enterKey macWorld)
             [] Key.Tab [noisy; failing] macWorld macWorld (Normal false));
      [reflexivity | reflexivity | reflexivity | discriminate].
  - apply (proj1 (checkKeystroke_first_deviation_decides enterFailing enterKey macWorld)
             [Key.Enter] failing [] macWorld macWorld
             (Throw (Thrown (VString "failing"))));
      [reflexivity | | reflexivity | discriminate].
    exists macWorld. split; reflexivity.
Defined.

(** On side-effect-free predicates the matcher returns a boolean, [true]
    exactly when each predicate gives the value asked of it. *)
Lemma checkKeystroke_pure_iff U (r : iKeystroke U) ev (w : World U) :
  pure_rule r ev w ->
  (exists b, returns (checkKeystroke r ev) w b) /\
  (returns (checkKeystroke r ev) w true <->
   Forall (fun p => returns (p ev) w true) (keys r) /\
   Forall (fun p => returns (p ev) w false) (except r)).
Proof.
  intros Hpure.
  destruct (checkKeystroke_pure Hpure) as [bk [bx [HFk [HFx [Hrun _]]]]].
  split; [eexists; exact Hrun|].
  rewrite <- (@answers_all U (keys r) ev w bk (fun b => b) true); trivial;
    [|intros b; reflexivity].
  rewrite <- (@answers_all U (except r) ev w bx negb false); trivial;
    [|intros b; now destruct b].
  rewrite <- andb_true_iff. unfold returns in *. rewrite Hrun.
  split; intros H; [now inversion H | now rewrite H].
Qed.

Lemma pure_rule_incl U (r r' : iKeystroke U) ev (w : World U) :
  incl (keys r) (keys r') -> incl (except r) (except r') ->
  pure_rule r' ev w -> pure_rule r ev w.
Proof.
  intros Hk Hx Hpure p Hp. apply Hpure.
  apply in_app_or in Hp. apply in_or_app.
  destruct Hp as [Hp|Hp]; [left; now apply Hk | right; now apply Hx].
Qed.

Lemma checkKeystroke_incl U (r r' : iKeystroke U) ev (w : World U) :
  pure_rule r' ev w ->
  incl (keys r) (keys r') -> incl (except r) (except r') ->
  returns (checkKeystroke r' ev) w true ->
  returns (checkKeystroke r ev) w true.
Proof.
  intros Hpure Hk Hx Htrue.
  apply (checkKeystroke_pure_iff Hpure) in Htrue. destruct Htrue as [HFk HFx].
  apply (checkKeystroke_pure_iff (@pure_rule_incl U r r' ev w Hk Hx Hpure)).
  rewrite Forall_forall in HFk, HFx.
  split; apply Forall_forall; intros p Hp; [apply HFk, Hk, Hp | apply HFx, Hx, Hp].
Qed.

(** X10: with side-effect-free predicates a rule only gets stricter as
    predicates are added: when a rule returns [true] on an event, so does
    every rule whose [keys] and [except] are drawn from its lists. *)
Theorem checkKeystroke_fewer_predicates U (r r' : iKeystroke U) ev (w : World U) :
  pure_rule r' ev w ->
  incl (keys r) (keys r') -> incl (except r) (except r') ->
  returns (checkKeystroke r' ev) w true ->
  returns (checkKeystroke r ev) w true.
Proof.
  intros Hpure Hk Hx Htrue. exact (@checkKeystroke_incl U r r' ev w Hpure Hk Hx Htrue).
Qed.

Lemma enterNotMod1_pure : pure_rule enterNotMod1 enterKey macWorld.
Proof. intros p [<-|[<-|[]]]; eexists; reflexivity. Qed.

(** "Enter and not mod1" matches Enter on a Mac, hence so does "Enter". *)
Lemma checkKeystroke_fewer_predicates_witness :
  pure_rule enterNotMod1 enterKey macWorld /\
  incl (keys enterOnly) (keys enterNotMod1) /\
  incl (except enterOnly) (except enterNotMod1) /\
  returns (checkKeystroke enterNotMod1 enterKey) macWorld true /\
  returns (checkKeystroke enterOnly enterKey) macWorld true.
Proof.
  assert (Hk : incl (keys enterOnly) (keys enterNotMod1)) by (intros p Hp; exact Hp).
  assert (Hx : incl (except enterOnly) (except enterNotMod1)) by (intros p []).
  assert (Ht : returns (checkKeystroke enterNotMod1 enterKey) macWorld true) by reflexivity.
  split; [exact enterNotMod1_pure|]. split; [exact Hk|]. split; [exact Hx|].
  split; [exact Ht|].
  apply (@checkKeystroke_fewer_predicates Log enterOnly enterNotMod1 enterKey macWorld
           enterNotMod1_pure Hk Hx Ht).
Defined.

Lemma returns_inj U A (m : JS U A) (w : World U) (a b : A) :
  returns m w a -> returns m w b -> a = b.
Proof. unfold returns. intros Ha Hb. rewrite Ha in Hb. now inversion Hb. Qed.

(** X11: with side-effect-free predicates, only which predicates a rule
    lists matters, not their order nor how often each is listed: two
    rules whose [keys] hold the same predicates and whose [except] hold
    the same predicates complete alike on every event. *)
Theorem checkKeystroke_order_and_repetition U (r r' : iKeystroke U) ev (w : World U) :
  pure_rule r ev w ->
  incl (keys r) (keys r') -> incl (keys r') (keys r) ->
  incl (except r) (except r') -> incl (except r') (except r) ->
  checkKeystroke r ev w = checkKeystroke r' ev w.
Proof.
  intros Hpure Hk Hk' Hx Hx'.
  assert (Hpure' : pure_rule r' ev w) by exact (@pure_rule_incl U r' r ev w Hk' Hx' Hpure).
  destruct (proj1 (checkKeystroke_pure_iff Hpure)) as [b Hb].
  destruct (proj1 (checkKeystroke_pure_iff Hpure')) as [b' Hb'].
  assert (Heq : b = b').
  { destruct b, b'; trivial.
    - apply (@returns_inj U bool (checkKeystroke r' ev) w); trivial.
      exact (@checkKeystroke_incl U r' r ev w Hpure Hk' Hx' Hb).
    - symmetry. apply (@returns_inj U bool (checkKeystroke r ev) w); trivial.
      exact (@checkKeystroke_incl U r r' ev w Hpure' Hk Hx Hb'). }
  unfold returns in *. now rewrite Hb, Hb', Heq.
Qed.

Lemma enterNotTab_pure : pure_rule enterNotTab enterKey winWorld.
Proof. intros p [<-|[<-|[<-|[]]]]; eexists; reflexivity. Qed.

(** The two writings of "Enter and neither Tab nor Shift" agree on Enter. *)
Lemma checkKeystroke_order_and_repetition_witness :
  pure_rule enterNotTab enterKey winWorld /\
  checkKeystroke enterNotTab enterKey winWorld
  = checkKeystroke enterNotTabAgain enterKey winWorld.
Proof.
  split; [exact enterNotTab_pure|].
  apply (@checkKeystroke_order_and_repetition Log enterNotTab enterNotTabAgain
           enterKey winWorld enterNotTab_pure);
    intros p Hp; simpl in *; tauto.
Defined.

(** X12: with side-effect-free predicates, putting two rules together,
    their [keys] concatenated and their [except] concatenated, gives the
    conjunction of what the two rules return. *)
Theorem checkKeystroke_bothRules U (r1 r2 : iKeystroke U) callback ev (w : World U)
    (b1 b2 : bool) :
  pure_rule (bothRules r1 r2 callback) ev w ->
  returns (checkKeystroke r1 ev) w b1 ->
  returns (checkKeystroke r2 ev) w b2 ->
  returns (checkKeystroke (bothRules r1 r2 callback) ev) w (b1 && b2).
Proof.
  intros Hpure H1 H2.
  set (r := bothRules r1 r2 callback) in *.
  assert (Hk1 : incl (keys r1) (keys r)) by apply incl_appl, incl_refl.
  assert (Hx1 : incl (except r1) (except r)) by apply incl_appl, incl_refl.
  assert (Hk2 : incl (keys r2) (keys r)) by apply incl_appr, incl_refl.
  assert (Hx2 : incl (except r2) (except r)) by apply incl_appr, incl_refl.
  assert (Hp1 : pure_rule r1 ev w) by exact (@pure_rule_incl U r1 r ev w Hk1 Hx1 Hpure).
  assert (Hp2 : pure_rule r2 ev w) by exact (@pure_rule_incl U r2 r ev w Hk2 Hx2 Hpure).
  destruct (proj1 (checkKeystroke_pure_iff Hpure)) as [b Hb].
  assert (Heq : b = b1 && b2).
  { destruct b.
    - rewrite (@returns_inj U bool (checkKeystroke r1 ev) w b1 true H1
                 (@checkKeystroke_incl U r1 r ev w Hpure Hk1 Hx1 Hb)).
      rewrite (@returns_inj U bool (checkKeystroke r2 ev) w b2 true H2
                 (@checkKeystroke_incl U r2 r ev w Hpure Hk2 Hx2 Hb)).
      reflexivity.
    - destruct b1, b2; trivial.
      apply (@returns_inj U bool (checkKeystroke r ev) w); trivial.
      apply (checkKeystroke_pure_iff Hpure).
      apply (checkKeystroke_pure_iff Hp1) in H1.
      apply (checkKeystroke_pure_iff Hp2) in H2.
      destruct H1 as [Hka Hxa], H2 as [Hkb Hxb].
      split; apply Forall_app; now split. }
  now rewrite <- Heq.
Qed.

Lemma enterOnly_notShift_pure :
  pure_rule (bothRules enterOnly notShift (logCall "both")) enterKey macWorld.
Proof. intros p [<-|[<-|[]]]; eexists; reflexivity. Qed.

(** "Enter" together with "not Shift", on Enter. *)
Lemma checkKeystroke_bothRules_witness :
  pure_rule (bothRules enterOnly notShift (logCall "both")) enterKey macWorld /\
  returns (checkKeystroke enterOnly enterKey) macWorld true /\
  returns (checkKeystroke notShift enterKey) macWorld true /\
  returns (checkKeystroke (bothRules enterOnly notShift (logCall "both")) enterKey)
    macWorld (true && true).
Proof.
  assert (H1 : returns (checkKeystroke enterOnly enterKey) macWorld true) by reflexivity.
  assert (H2 : returns (checkKeystroke notShift enterKey) macWorld true) by reflexivity.
  split; [exact enterOnly_notShift_pure|]. split; [exact H1|]. split; [exact H2|].
  apply (@checkKeystroke_bothRules Log enterOnly notShift (logCall "both") enterKey
           macWorld true true enterOnly_notShift_pure H1 H2).
Defined.

(* ================================================================== *)
(** * Further properties of the dispatcher                             *)
(* ================================================================== *)

(** X13: the dispatcher of two rule sets concatenated is the dispatcher
    of the first followed by the dispatcher of the second, which is not
    run when the first throws. *)
Theorem handleKeyboard_concat U (rs1 rs2 : list (iKeystroke U)) ev (w : World U) :
  handleKeyboard (rs1 ++ rs2) ev w
  = (handleKeyboard rs1 ev ;; handleKeyboard rs2 ev) w.
Proof.
  rewrite handleKeyboard_app. unfold bind.
  destruct (handleKeyboard rs1 ev w) as [[u|e] w1]; reflexivity.
Qed.

(** X14: an exception thrown by a predicate while a rule is checked
    comes out of the dispatcher: the rules before it have been handled
    and their effects stay, the callback of the rule and all later rules
    are not run. *)
Theorem handleKeyboard_predicate_throw U (before after : list (iKeystroke U))
    (r : iKeystroke U) ev (w w1 w2 : World U) (e : Exn) :
  handleKeyboard before ev w = (Normal tt, w1) ->
  checkKeystroke r ev w1 = (Throw e, w2) ->
  handleKeyboard (before ++ r :: after) ev w = (Throw e, w2).
Proof.
  intros Hbefore Hcheck.
  rewrite handleKeyboard_app, Hbefore, handleKeyboard_cons, Hcheck.
  reflexivity.
Qed.

(** Control without a navigator: the rule on [Key.Control] fires, the
    rule on [Key.mod1] makes the dispatcher throw a [TypeError], the last
    rule is not reached. *)
Lemma handleKeyboard_predicate_throw_witness :
  handleKeyboard ([controlLogs "first"] ++ primaryModifier :: [controlLogs "later"])
    controlKey bareWorld
  = (Throw TypeError, {| navigator := VUndefined; user := ["first:Control"] |}).
Proof.
  apply (@handleKeyboard_predicate_throw Log [controlLogs "first"] [controlLogs "later"]
           primaryModifier controlKey bareWorld
           {| navigator := VUndefined; user := ["first:Control"] |});
    reflexivity.
Defined.

Lemma isMacOS_returns_transfer U (w w' : World U) (macOS : bool) :
  returns isMacOS w macOS ->
  fst (isMacOS w') = fst (isMacOS w) ->
  returns isMacOS w' macOS.
Proof.
  unfold returns. intros Hw Hfst.
  rewrite (surjective_pairing (isMacOS w')), Hfst, Hw, isMacOS_preserves_world.
  reflexivity.
Qed.

(** X15: the dispatcher raises no error of its own.  For rules written
    with the catalog, in a state where [isMacOS()] returns, and with
    callbacks that return and do not change what [isMacOS()] answers, the
    dispatcher returns on every event. *)
Theorem handleKeyboard_never_throws U (rules : list (iKeystroke U)) ev (w : World U)
    (macOS : bool) :
  returns isMacOS w macOS ->
  (forall r p, In r rules -> In p (keys r ++ except r) -> In p catalog) ->
  (forall r w', In r rules ->
     exists w'', cb r ev w' = (Normal tt, w'') /\
                 fst (isMacOS w'') = fst (isMacOS w')) ->
  exists w', handleKeyboard rules ev w = (Normal tt, w').
Proof.
  revert w. induction rules as [|r rules IH]; intros w Hmac Hcat Hcb.
  - exists w. reflexivity.
  - assert (IH' : forall w1, returns isMacOS w1 macOS ->
              exists w', handleKeyboard rules ev w1 = (Normal tt, w')).
    { intros w1 Hw1. apply IH; trivial.
      - intros q p Hq. apply Hcat. now right.
      - intros q w' Hq. apply Hcb. now right. }
    assert (Hpure : pure_rule r ev w).
    { intros p Hp. apply catalog_side_effect_free with (macOS := macOS); trivial.
      apply (Hcat r p (or_introl eq_refl) Hp). }
    destruct (checkKeystroke_pure Hpure) as [bk [bx [_ [_ [Hrun _]]]]].
    unfold returns in Hrun. rewrite handleKeyboard_cons, Hrun.
    destruct (forallb (fun b => b) bk && forallb negb bx).
    + destruct (Hcb r w (or_introl eq_refl)) as [w1 [Hc Hsame]].
      rewrite Hc. apply IH'.
      exact (@isMacOS_returns_transfer U w w1 macOS Hmac Hsame).
    + apply IH', Hmac.
Qed.

Lemma logCall_keeps_platform (tag : string) ev (w : World Log) :
  exists w', logCall tag ev w = (Normal tt, w') /\ fst (isMacOS w') = fst (isMacOS w).
Proof.
  eexists. split; [reflexivity|]. now rewrite !isMacOS_unfold.
Qed.

(** The sample rules on Meta, on a Mac. *)
Lemma handleKeyboard_never_throws_witness :
  returns isMacOS macWorld true /\
  exists w', handleKeyboard sampleRules metaKey macWorld = (Normal tt, w').
Proof.
  assert (Hmac : returns isMacOS macWorld true) by reflexivity.
  split; [exact Hmac|].
  apply (@handleKeyboard_never_throws Log sampleRules metaKey macWorld true Hmac).
  - intros r p [<-|[<-|[<-|[]]]] Hp; simpl in Hp;
      repeat (destruct Hp as [<-|Hp]); try contradiction; unfold catalog; in_list.
  - intros r w' [<-|[<-|[<-|[]]]]; apply logCall_keeps_platform.
Defined.
